(** * MAS-RED: parse_mas_fid.py

    A shallow embedding of [parse_mas_fid.py] and the properties of its
    extraction pipeline.

    - Python [str] values are modelled by [string]; a character [ascii] is
      read as the code point U+0000..U+00FF, and the character classes below
      are the ones CPython uses on that range.
    - The regular expressions are lists of items run by a backtracking
      matcher, with the greedy and lazy quantifiers of [re].
    - A row is what [csv.DictReader] yields, cells absent from a short line
      and extra cells of a long line included; what raises in Python returns
      [Raise] here.
    - The two [OrderedDict] registries are association lists in insertion
      order; the attributes of an entity are a finite map from column names
      to finite sets of values, then to finalized values; the set of
      relationship keys is a finite set. *)

From Stdlib Require Import ZArith Ascii String List Sorted.
From stdpp Require Import base option list sorting gmap strings pretty.

(** ** Characters and [str] methods *)

Module Char.

Definition code (c : ascii) : N := N_of_ascii c.

Definition between (lo hi : N) (c : ascii) : bool :=
  ((lo <=? code c) && (code c <=? hi))%N.

(** [str.isspace] / the regex class [\s] on a [str] pattern: TAB..CR,
    FS..US, SPACE, NEL and NBSP. *)
Definition isspace (c : ascii) : bool :=
  between 9 13 c || between 28 32 c || (code c =? 133)%N || (code c =? 160)%N.

(** The regex class [\d]: the decimal digits. *)
Definition isdigit (c : ascii) : bool := between 48 57 c.

(** The regex class [[A-Za-z]]. *)
Definition is_ascii_letter (c : ascii) : bool :=
  between 65 90 c || between 97 122 c.

(** [str.isalpha]: the letters of the range. *)
Definition isalpha (c : ascii) : bool :=
  is_ascii_letter c
  || (code c =? 170)%N || (code c =? 181)%N || (code c =? 186)%N
  || between 192 214 c || between 216 246 c || between 248 255 c.

(** [str.lower] on one character. *)
Definition lower (c : ascii) : ascii :=
  if between 65 90 c || between 192 214 c || between 216 222 c
  then ascii_of_N (code c + 32)
  else c.

Definition is_char (x : ascii) (c : ascii) : bool := (code c =? code x)%N.
Definition not_char (x : ascii) (c : ascii) : bool := negb (is_char x c).

End Char.

Module Str.

Fixpoint forallb (p : ascii → bool) (s : string) : bool :=
  match s with
  | "" => true
  | String c s' => p c && forallb p s'
  end.

Fixpoint existsb (p : ascii → bool) (s : string) : bool :=
  match s with
  | "" => false
  | String c s' => p c || existsb p s'
  end.

Fixpoint map (f : ascii → ascii) (s : string) : string :=
  match s with
  | "" => ""
  | String c s' => String (f c) (map f s')
  end.

(** Truthiness of a [str]: non-empty. *)
Definition truthy (s : string) : bool :=
  match s with "" => false | _ => true end.

Fixpoint lstrip (s : string) : string :=
  match s with
  | String c s' => if Char.isspace c then lstrip s' else s
  | "" => ""
  end.

Fixpoint rstrip (s : string) : string :=
  match s with
  | String c s' =>
      match rstrip s' with
      | "" => if Char.isspace c then "" else String c ""
      | r => String c r
      end
  | "" => ""
  end.

(** [s.strip()] *)
Definition strip (s : string) : string := rstrip (lstrip s).

(** [s.lower()] *)
Definition lower (s : string) : string := map Char.lower s.

(** [s.split(sep, 1)] for a one-character separator, when [sep in s];
    [None] when the separator does not occur. *)
Fixpoint split1 (sep : ascii) (s : string) : option (string * string) :=
  match s with
  | "" => None
  | String c s' =>
      if Char.is_char sep c then Some ("", s')
      else match split1 sep s' with
           | Some (a, b) => Some (String c a, b)
           | None => None
           end
  end.

(** [int(s)] on a string of decimal digits. *)
Definition int_of_digits (s : string) : Z :=
  (fix go (acc : Z) (s : string) : Z :=
     match s with
     | "" => acc
     | String c s' => go (10 * acc + (Z.of_N (Char.code c) - 48))%Z s'
     end) 0%Z s.

End Str.

(** ** Regular expressions

    The patterns of the module use single-character classes under [*], [*?],
    [+] and [?], literal characters and named groups.  [run] is the
    backtracking matcher of [re]: a greedy quantifier tries the longest
    repetition first, a lazy one the shortest, and the first alternative that
    lets the rest of the pattern match wins. *)

Module Re.

Inductive item : Type :=
| Chr (p : ascii → bool)        (* one character of the class *)
| Star (p : ascii → bool)       (* p*  *)
| LazyStar (p : ascii → bool)   (* p*? *)
| Plus (p : ascii → bool)       (* p+  *)
| Opt (p : ascii → bool)        (* p?  *)
| GroupOpen (g : string)        (* (?P<g> *)
| GroupClose (g : string).      (* )      *)

Definition pattern := list item.

Inductive mark := Start (g : string) (pos : nat) | End (g : string) (pos : nat).

(** [run p s pos marks]: match [p] against the rest [s] of the subject,
    [pos] characters into it; the result lists the group boundaries, the
    latest first. *)
Fixpoint run (p : pattern) (s : string) (pos : nat) (marks : list mark)
  : option (list mark) :=
  match p with
  | [] => Some marks
  | Chr c :: p' =>
      match s with
      | String a s' => if c a then run p' s' (S pos) marks else None
      | "" => None
      end
  | Star c :: p' =>
      (fix star (s : string) (pos : nat) : option (list mark) :=
         match s with
         | String a s' =>
             if c a then
               match star s' (S pos) with
               | Some r => Some r
               | None => run p' s pos marks
               end
             else run p' s pos marks
         | "" => run p' s pos marks
         end) s pos
  | LazyStar c :: p' =>
      (fix star (s : string) (pos : nat) : option (list mark) :=
         match run p' s pos marks with
         | Some r => Some r
         | None =>
             match s with
             | String a s' => if c a then star s' (S pos) else None
             | "" => None
             end
         end) s pos
  | Plus c :: p' =>
      match s with
      | String a s' =>
          if c a then
            (fix star (s : string) (pos : nat) : option (list mark) :=
               match s with
               | String a s' =>
                   if c a then
                     match star s' (S pos) with
                     | Some r => Some r
                     | None => run p' s pos marks
                     end
                   else run p' s pos marks
               | "" => run p' s pos marks
               end) s' (S pos)
          else None
      | "" => None
      end
  | Opt c :: p' =>
      match s with
      | String a s' =>
          if c a then
            match run p' s' (S pos) marks with
            | Some r => Some r
            | None => run p' s pos marks
            end
          else run p' s pos marks
      | "" => run p' s pos marks
      end
  | GroupOpen g :: p' => run p' s pos (Start g pos :: marks)
  | GroupClose g :: p' => run p' s pos (End g pos :: marks)
  end.

(** A match object: the subject and the group boundaries. *)
Record match_obj := Match { subject : string; marks : list mark }.

Fixpoint start_of (g : string) (ms : list mark) : option nat :=
  match ms with
  | [] => None
  | Start g' pos :: ms' => if String.eqb g g' then Some pos else start_of g ms'
  | End _ _ :: ms' => start_of g ms'
  end.

Fixpoint end_of (g : string) (ms : list mark) : option nat :=
  match ms with
  | [] => None
  | End g' pos :: ms' => if String.eqb g g' then Some pos else end_of g ms'
  | Start _ _ :: ms' => end_of g ms'
  end.

(** [m.group(g)] for a group that took part in the match. *)
Definition group (m : match_obj) (g : string) : string :=
  match start_of g (marks m), end_of g (marks m) with
  | Some a, Some b => String.substring a (b - a) (subject m)
  | _, _ => ""
  end.

(** [re.match(p, s)]: the pattern anchored at the start of [s]. *)
Definition match_ (p : pattern) (s : string) : option match_obj :=
  match run p s 0 [] with
  | Some ms => Some (Match s ms)
  | None => None
  end.

(** [re.search(p, s)]: the leftmost position where the pattern matches;
    [search_from] tries the positions from [pos] on, [rest] being the
    subject from there. *)
Fixpoint search_from (p : pattern) (s rest : string) (pos : nat)
  : option match_obj :=
  match run p rest pos [] with
  | Some ms => Some (Match s ms)
  | None =>
      match rest with
      | String _ rest' => search_from p s rest' (S pos)
      | "" => None
      end
  end.

Definition search (p : pattern) (s : string) : option match_obj :=
  search_from p s s 0.

End Re.

(** ** The field interpreter *)

(** [_split_name_role] *)
Definition _split_name_role (text : string) : string * option string :=
  let '(name, role) :=
    match Str.split1 "-"%char text with
    | Some (name, role) => (name, Some role)
    | None =>
        match Str.split1 ","%char text with
        | Some (name, role) => (name, Some role)
        | None => (text, None)
        end
    end in
  (Str.strip name,
   match role with
   | Some r => if Str.truthy r then Some (Str.strip r) else None
   | None => None
   end).

(** The class [[^()]]. *)
Definition no_paren (c : ascii) : bool :=
  Char.not_char "("%char c && Char.not_char ")"%char c.

(** The first pattern of [parse_person_field], token by token:
    [(?P<name> [A-Za-z] [^()]*? ) \s* \( (?P<role> [^)]+ ) \) \s* -? \s* (?P<phone> .* )] *)
Definition pattern_A : Re.pattern :=
  [ Re.GroupOpen "name"; Re.Chr Char.is_ascii_letter;
    Re.LazyStar no_paren;
    Re.GroupClose "name";
    Re.Star Char.isspace; Re.Chr (Char.is_char "("%char);
    Re.GroupOpen "role"; Re.Plus (Char.not_char ")"%char); Re.GroupClose "role";
    Re.Chr (Char.is_char ")"%char);
    Re.Star Char.isspace; Re.Opt (Char.is_char "-"%char); Re.Star Char.isspace;
    Re.GroupOpen "phone"; Re.Star (Char.not_char "010"%char); Re.GroupClose "phone" ].

(** The second pattern, token by token:
    [(?P<phone> [+\d] [^()]*? ) \s* \( (?P<inside> [^)]+ ) \)] *)
Definition pattern_B : Re.pattern :=
  [ Re.GroupOpen "phone"; Re.Chr (λ c, Char.is_char "+"%char c || Char.isdigit c);
    Re.LazyStar no_paren;
    Re.GroupClose "phone";
    Re.Star Char.isspace; Re.Chr (Char.is_char "("%char);
    Re.GroupOpen "inside"; Re.Plus (Char.not_char ")"%char); Re.GroupClose "inside";
    Re.Chr (Char.is_char ")"%char) ].

(** [s or None] *)
Definition or_None (s : string) : option string :=
  if Str.truthy s then Some s else None.

(** [parse_person_field]; the result is [(name, role, phone)]. *)
Definition parse_person_field (value : string)
  : option (string * option string * option string) :=
  if negb (Str.truthy value) then None else
  let value := Str.strip value in
  match Re.match_ pattern_A value with
  | Some m =>
      let name := Str.strip (Re.group m "name") in
      let role := Str.strip (Re.group m "role") in
      let phone := or_None (Str.strip (Re.group m "phone")) in
      Some (name, Some role, phone)
  | None =>
      match Re.match_ pattern_B value with
      | Some m =>
          let phone := or_None (Str.strip (Re.group m "phone")) in
          let inside := Str.strip (Re.group m "inside") in
          if Str.existsb Char.isalpha inside then
            let '(name, role) := _split_name_role inside in
            Some (name, role, phone)
          else None
      | None => None
      end
  end.

(** [extract_year]: the pattern is [(\d{4})]. *)
Definition pattern_year : Re.pattern :=
  [ Re.GroupOpen "1"; Re.Chr Char.isdigit; Re.Chr Char.isdigit;
    Re.Chr Char.isdigit; Re.Chr Char.isdigit; Re.GroupClose "1" ].

Definition extract_year (filename : string) : option Z :=
  match Re.search pattern_year filename with
  | Some m => Some (Str.int_of_digits (Re.group m "1"))
  | None => None
  end.

(** ** Exceptions *)

(** The exceptions of a run: a method called on a value without it, a file
    that cannot be opened, and a file that is not UTF-8. *)
Inductive exn := AttributeError | OSError | UnicodeDecodeError.

Inductive result (A : Type) : Type :=
| Ok (a : A)
| Raise (e : exn).
Arguments Ok {A} a.
Arguments Raise {A} e.

#[global] Instance result_bind : MBind result := λ A B k m,
  match m with
  | Ok a => k a
  | Raise e => Raise e
  end.

#[global] Instance result_fmap : FMap result := λ A B f m,
  x ← m; Ok (f x).

(** A loop [for x in l: body], where the body may raise. *)
Fixpoint for_each {S A : Type} (body : S → A → result S) (l : list A) (st : S)
  : result S :=
  match l with
  | [] => Ok st
  | x :: l' => st' ← body st x ; for_each body l' st'
  end.

(** ** Data model *)

(** A row of [csv.DictReader]: the header's columns with their cells, a cell
    missing from a short line being [None], and on a long line the extra
    cells, kept as a list under the key [None]. *)
Inductive field :=
| Field (key : string) (value : option string)
| Rest (values : list string).

Definition row := list field.

(** [row.get(key, "")] *)
Fixpoint row_get (r : row) (key : string) : option string :=
  match r with
  | [] => Some ""
  | Field k v :: r' => if String.eqb k key then v else row_get r' key
  | Rest _ :: r' => row_get r' key
  end.

(** [value.strip()] on a cell of a row: [None] has no [strip]. *)
Definition strip_cell (v : option string) : result string :=
  match v with
  | Some s => Ok (Str.strip s)
  | None => Raise AttributeError
  end.

Inductive entity_type := Company | Person.

#[global] Instance entity_type_eq_dec : EqDecision entity_type.
Proof. solve_decision. Defined.

Record entity (V : Type) := Entity {
  entityId : string;
  type : entity_type;
  canonicalName : string;
  mentions : list string;
  attributes : gmap string V
}.
Arguments Entity {V}.
Arguments entityId {V}.
Arguments type {V}.
Arguments canonicalName {V}.
Arguments mentions {V}.
Arguments attributes {V}.

(** An attribute of a finalized entity: a string, or a list of strings. *)
Inductive attr_value :=
| Scalar (s : string)
| Sequence (l : list string).

Record relationship := Relationship {
  sourceEntityId : string;
  targetEntityId : string;
  role : option string;
  effectiveDate : option string
}.

(** An [OrderedDict] from canonical names to entities, in insertion order. *)
Definition registry := list (string * entity (gset string)).

Fixpoint reg_lookup (name : string) (reg : registry) : option (entity (gset string)) :=
  match reg with
  | [] => None
  | (k, e) :: reg' => if String.eqb k name then Some e else reg_lookup name reg'
  end.

(** The entity stored under [name] is a shared object: a change made through
    a reference to it is a change of the stored entity. *)
Fixpoint reg_store (name : string) (e : entity (gset string)) (reg : registry)
  : registry :=
  match reg with
  | [] => []
  | (k, e0) :: reg' =>
      if String.eqb k name then (k, e) :: reg' else (k, e0) :: reg_store name e reg'
  end.

Definition type_upper (ty : entity_type) : string :=
  match ty with Company => "COMPANY" | Person => "PERSON" end.

Definition new_entity (ty : entity_type) (n : nat) (name : string)
  : entity (gset string) :=
  {| entityId := type_upper ty +:+ "_" +:+ pretty (n + 1);
     type := ty;
     canonicalName := name;
     mentions := [name];
     attributes := ∅ |}.

(** [if name not in reg: reg[name] = {...}] followed by [reg[name]]. *)
Definition get_or_create (ty : entity_type) (name : string) (reg : registry)
  : registry * entity (gset string) :=
  match reg_lookup name reg with
  | Some e => (reg, e)
  | None =>
      let e := new_entity ty (length reg) name in
      (reg ++ [(name, e)], e)
  end.

(** [e.setdefault("attributes", {}).setdefault(key, set()).add(value)] *)
Definition add_attribute (key value : string) (e : entity (gset string))
  : entity (gset string) :=
  {| entityId := entityId e;
     type := type e;
     canonicalName := canonicalName e;
     mentions := mentions e;
     attributes :=
       <[key := default ∅ (attributes e !! key) ∪ {[value]}]> (attributes e) |}.

Record state := State {
  companies : registry;
  persons : registry;
  relationships : list relationship;
  relation_keys : gset (string * string * string)
}.

Definition initial_state : state :=
  {| companies := []; persons := []; relationships := []; relation_keys := ∅ |}.

(** ** The extraction pipeline *)

(** The body of [for key, value in row.items()]. *)
Definition add_field (comp : entity (gset string)) (f : field)
  : result (entity (gset string)) :=
  match f with
  | Field key value =>
      if String.eqb key "Organisation Name" then Ok comp else
      value ← strip_cell value ;
      if negb (Str.truthy value) then Ok comp else
      Ok (add_attribute key value comp)
  | Rest _ => Raise AttributeError
  end.

(** [role or ""] *)
Definition role_or_empty (role : option string) : string :=
  match role with
  | Some r => r
  | None => ""
  end.

(** [role.lower() if role else None] *)
Definition stored_role (role : option string) : option string :=
  match role with
  | Some r => if Str.truthy r then Some (Str.lower r) else None
  | None => None
  end.

(** [parse_person_field(row.get("Phone Number", ""))]; a missing cell is
    falsy, and so is not a person. *)
Definition row_person (r : row) : option (string * option string * option string) :=
  match row_get r "Phone Number" with
  | Some value => parse_person_field value
  | None => None
  end.

(** [if phone: person.setdefault("attributes", {}).setdefault("Phone Number", set()).add(phone)] *)
Definition add_phone (phone : option string) (person : entity (gset string))
  : entity (gset string) :=
  match phone with
  | Some ph => if Str.truthy ph then add_attribute "Phone Number" ph person else person
  | None => person
  end.

(** The relationship of a person and a company, unless its key is known. *)
Definition add_relationship (person comp : entity (gset string))
    (role : option string)
    (rels : list relationship * gset (string * string * string))
  : list relationship * gset (string * string * string) :=
  let key := (entityId person, entityId comp, role_or_empty role) in
  if decide (key ∈ rels.2) then rels
  else
    (rels.1 ++
       [ {| sourceEntityId := entityId person;
            targetEntityId := entityId comp;
            role := stored_role role;
            effectiveDate := None |} ],
     {[key]} ∪ rels.2).

(** The body of [for row in reader]. *)
Definition process_row (st : state) (r : row) : result state :=
  company_name ← strip_cell (row_get r "Organisation Name");
  if negb (Str.truthy company_name) then Ok st else
  let '(companies1, comp) := get_or_create Company company_name (companies st) in
  comp ← for_each add_field r comp;
  let companies2 := reg_store company_name comp companies1 in
  match row_person r with
  | Some (name, role, phone) =>
      let '(persons1, person) := get_or_create Person name (persons st) in
      let person := add_phone phone person in
      let persons2 := reg_store name person persons1 in
      let '(rels, keys) :=
        add_relationship person comp role (relationships st, relation_keys st) in
      Ok {| companies := companies2; persons := persons2;
            relationships := rels; relation_keys := keys |}
  | None =>
      Ok {| companies := companies2; persons := persons st;
            relationships := relationships st;
            relation_keys := relation_keys st |}
  end.

(** [sorted(v)] *)
Definition sorted (v : gset string) : list string :=
  merge_sort String.le (elements v).

(** The new value of an attribute in [finalize]. *)
Definition finalize_value (v : gset string) : attr_value :=
  if decide (size v = 1) then Scalar (default "" (head (elements v)))
  else Sequence (sorted v).

Definition finalize (e : entity (gset string)) : entity attr_value :=
  {| entityId := entityId e;
     type := type e;
     canonicalName := canonicalName e;
     mentions := mentions e;
     attributes := finalize_value <$> attributes e |}.

(** [[finalize(e) for e in reg.values()]] *)
Definition finalize_all (reg : registry) : list (entity attr_value) :=
  (λ p, finalize p.2) <$> reg.

(** The rows are read, and then the entities finalized. *)
Definition parse_rows (rows : list row)
  : result (list (entity attr_value) * list relationship) :=
  st ← for_each process_row rows initial_state ;
  Ok (finalize_all (companies st) ++ finalize_all (persons st),
      relationships st).

(** The files: the rows [csv.DictReader] reads from a path, when the file
    can be opened and is read to its end.  An exception of the reader between
    two rows is outside this model: what is shown of the rows of a file
    assumes [fs path = Ok rows]. *)
Definition file_system := string → result (list row).

Definition parse_mas_fid (fs : file_system) (file_path : string)
  : result (list (entity attr_value) * list relationship) :=
  rows ← fs file_path ; parse_rows rows.

(** The dictionary of [build_output]; [out_relationships] is its key
    [relationships]. *)
Record output := Output {
  reportYear : option Z;
  entities : list (entity attr_value);
  out_relationships : list relationship
}.

Definition build_output (fs : file_system) (file_path : string) : result output :=
  let report_year := extract_year file_path in
  '(entities, relationships) ← parse_mas_fid fs file_path ;
  Ok {| reportYear := report_year;
        entities := entities;
        out_relationships := relationships |}.

(** ** What a row contributes *)

(** An entity without its attributes. *)
Definition bare {V : Type} (e : entity V) : entity () :=
  {| entityId := entityId e;
     type := type e;
     canonicalName := canonicalName e;
     mentions := mentions e;
     attributes := ∅ |}.

(** The names under which a registry holds its entities, first seen first. *)
Definition names (reg : registry) : list string := reg.*1.

(** The company a row is about: its trimmed organisation name, unless the
    column is missing or blank. *)
Definition row_company (r : row) : option string :=
  match row_get r "Organisation Name" with
  | Some s => if Str.truthy (Str.strip s) then Some (Str.strip s) else None
  | None => None
  end.

(** The name of the person that a row of a company mentions. *)
Definition row_person_name (r : row) : option string :=
  match row_company r, row_person r with
  | Some _, Some (name, _, _) => Some name
  | _, _ => None
  end.

(** The non-empty trimmed values of the column [key] in a row. *)
Fixpoint row_values (key : string) (r : row) : gset string :=
  match r with
  | [] => ∅
  | Field k (Some v) :: r' =>
      (if decide (k = key ∧ Str.strip v ≠ "") then {[Str.strip v]} else ∅)
      ∪ row_values key r'
  | _ :: r' => row_values key r'
  end.

(** The values of the column [key] over the rows of the company [name]. *)
Fixpoint column_values (name key : string) (rows : list row) : gset string :=
  match rows with
  | [] => ∅
  | r :: rows' =>
      (if decide (row_company r = Some name) then row_values key r else ∅)
      ∪ column_values name key rows'
  end.

(** The distinct elements of a list, in the order of their first
    occurrences. *)
Fixpoint first_seen (l : list string) : list string :=
  match l with
  | [] => []
  | x :: l' => x :: filter (λ y, y ≠ x) (first_seen l')
  end.

(** ** Statements about rows and file names *)

(** The value of a decimal digit. *)
Definition digit_value (c : ascii) : Z := Z.of_N (Char.code c) - 48.

(** [s] starts with four digits, whose decimal value is [y]. *)
Definition year_prefix (s : string) (y : Z) : Prop :=
  ∃ a b c d rest,
    s = String a (String b (String c (String d rest)))
    ∧ Char.isdigit a = true ∧ Char.isdigit b = true
    ∧ Char.isdigit c = true ∧ Char.isdigit d = true
    ∧ y = (1000 * digit_value a + 100 * digit_value b
           + 10 * digit_value c + digit_value d)%Z.

(** The second pattern from the end of its group [phone] on. *)
Definition pattern_B_tail : Re.pattern :=
  [ Re.GroupClose "phone";
    Re.Star Char.isspace; Re.Chr (Char.is_char "("%char);
    Re.GroupOpen "inside"; Re.Plus (Char.not_char ")"%char); Re.GroupClose "inside";
    Re.Chr (Char.is_char ")"%char) ].

(** A parenthesis around [inside], and what follows it. *)
Definition parenthesized (inside rest : string) : string :=
  String "(" (inside +:+ String ")" rest).

(** The row has no column of the organisation name (the header lacks it), or
    its organisation name is blank once trimmed.  A cell that is [None] is
    neither. *)
Definition organisation_absent_or_blank (r : row) : Prop :=
  (∀ v, Field "Organisation Name" v ∉ r)
  ∨ (∃ s, row_get r "Organisation Name" = Some s ∧ Str.strip s = "").

(** A row of a line that is neither shorter nor longer than the header:
    every column has its cell. *)
Definition rectangular (r : row) : Prop :=
  Forall (λ f, ∃ k v, f = Field k (Some v)) r.

(** ** The quantities followed along the rows *)

(** The value of the four digits that [s] starts with, if it does. *)
Definition digits4 (s : string) : option Z :=
  match s with
  | String a (String b (String c (String d _))) =>
      if Char.isdigit a && Char.isdigit b && Char.isdigit c && Char.isdigit d
      then Some (1000 * digit_value a + 100 * digit_value b
                 + 10 * digit_value c + digit_value d)%Z
      else None
  | _ => None
  end.

(** The value of the first four consecutive digits of [s]. *)
Fixpoint first_year (s : string) : option Z :=
  match digits4 s with
  | Some y => Some y
  | None =>
      match s with
      | String _ s' => first_year s'
      | "" => None
      end
  end.

(** A registry sees a name: it is appended unless it is known. *)
Definition add_seen (l : list string) (o : option string) : list string :=
  match o with
  | Some n => if decide (n ∈ l) then l else l ++ [n]
  | None => l
  end.

(** The names and identities held by a registry. *)
Definition skeleton (reg : registry) : list (string * entity ()) :=
  (λ p, (p.1, bare p.2)) <$> reg.

(** The identity of the entity of the name [n], the [i]-th of its type
    counting from 0. *)
Definition numbered (ty : entity_type) (i : nat) (n : string) : entity () :=
  Entity (type_upper ty +:+ "_" +:+ pretty (i + 1)) ty n [n] ∅.

(** The entities of a registry are numbered in the order of the names. *)
Definition reg_wf (ty : entity_type) (reg : registry) : Prop :=
  skeleton reg = imap (λ i n, (n, numbered ty i n)) (names reg).

(** The row's name of its type: a company, or a person of a company. *)
Definition row_name (ty : entity_type) (r : row) : option string :=
  match ty with
  | Company => row_company r
  | Person => row_person_name r
  end.

(** The registry of a type in a state. *)
Definition registry_of (ty : entity_type) (st : state) : registry :=
  match ty with
  | Company => companies st
  | Person => persons st
  end.

(** The identifiers of the entities of a registry. *)
Definition ids (reg : registry) : list string := (λ p, entityId p.2) <$> reg.

(** The values that an attribute map holds for a key. *)
Definition value_set (m : gmap string (gset string)) (key : string) : gset string :=
  default ∅ (m !! key).

(** No key of the map has an empty set, and the organisation name is no
    key. *)
Definition attrs_wf (m : gmap string (gset string)) : Prop :=
  (∀ key v, m !! key = Some v → v ≠ ∅) ∧ m !! "Organisation Name" = None.

(** The attributes of the entity called [name], if there is one. *)
Definition attrs_of (reg : registry) (name : string) : gmap string (gset string) :=
  match reg_lookup name reg with
  | Some e => attributes e
  | None => ∅
  end.

(** ** Sample files *)

(** Two rows of one company, a row without organisation name, and a row of
    a second company with the person of the first row. *)
Definition sample_rows : list row :=
  [ [ Field "Organisation Name" (Some " ACME Pte Ltd ");
      Field "Address" (Some "1 Raffles Place");
      Field "Phone Number" (Some "Oleg Leonov (CEO-designate) -6221 9876") ];
    [ Field "Organisation Name" (Some "ACME Pte Ltd");
      Field "Address" (Some "2 Marina Boulevard ");
      Field "Phone Number" (Some "+65 6221 9876 (Tan Wee-Head of Compliance)") ];
    [ Field "Organisation Name" (Some "  ");
      Field "Address" (Some "3 Church Street");
      Field "Phone Number" (Some "Ann Lim (Director) -6000 0000") ];
    [ Field "Organisation Name" (Some "Beta Bank");
      Field "Address" (Some "1 Raffles Place");
      Field "Phone Number" (Some "Oleg Leonov (ceo-designate) -6221 9876") ] ].

Definition sample_path : string := "MAS_FID_2025-06-19.xls".

Definition sample_fs : file_system := λ _, Ok sample_rows.

Definition sample_entities : list (entity attr_value) :=
  match parse_rows sample_rows with
  | Ok (ents, _) => ents
  | Raise _ => []
  end.

Definition sample_relationships : list relationship :=
  match parse_rows sample_rows with
  | Ok (_, rels) => rels
  | Raise _ => []
  end.

(** The rows of a file with the header [Address], [Organisation Name],
    [Phone Number]: a line with its three cells, and a line that ends after
    the address, whose other cells [csv.DictReader] fills with [None]. *)
Definition full_line : row :=
  [ Field "Address" (Some "1 Raffles Place");
    Field "Organisation Name" (Some "ACME Pte Ltd");
    Field "Phone Number" (Some "Oleg Leonov (CEO) -6221 9876") ].

Definition short_line : row :=
  [ Field "Address" (Some "3 Church Street");
    Field "Organisation Name" None;
    Field "Phone Number" None ].

(** Two rows whose person fields differ by the case of the role. *)
Definition case_rows : list row :=
  [ [ Field "Organisation Name" (Some "ACME");
      Field "Phone Number" (Some "John (CEO) -123") ];
    [ Field "Organisation Name" (Some "ACME");
      Field "Phone Number" (Some "John (ceo) -123") ] ].

(** ** Definitions of the further properties *)

(** The longest start of [s] in the class [p], and what follows it. *)
Fixpoint take_while (p : ascii → bool) (s : string) : string :=
  match s with
  | String c s' => if p c then String c (take_while p s') else ""
  | "" => ""
  end.

Fixpoint drop_while (p : ascii → bool) (s : string) : string :=
  match s with
  | String c s' => if p c then drop_while p s' else s
  | "" => ""
  end.

(** [s] without the hyphen it may start with. *)
Definition drop_hyphen (s : string) : string :=
  match s with
  | String c s' => if Char.is_char "-"%char c then s' else s
  | "" => ""
  end.

(** What the group [phone] of the first pattern takes from the text after
    the parenthesis: white space, a hyphen and white space are skipped, and
    the phone goes to the end of the line. *)
Definition phone_line (rest : string) : string :=
  take_while (Char.not_char "010"%char)
    (drop_while Char.isspace (drop_hyphen (drop_while Char.isspace rest))).

(** The end of both patterns from the end of the first group on: white
    space, a parenthesis around the group [g2], and the pattern [p]. *)
Definition paren_tail (g1 g2 : string) (p : Re.pattern) : Re.pattern :=
  [ Re.GroupClose g1;
    Re.Star Char.isspace; Re.Chr (Char.is_char "("%char);
    Re.GroupOpen g2; Re.Plus (Char.not_char ")"%char); Re.GroupClose g2;
    Re.Chr (Char.is_char ")"%char) ] ++ p.

(** The end of the first pattern after its parenthesis. *)
Definition phone_tail : Re.pattern :=
  [ Re.Star Char.isspace; Re.Opt (Char.is_char "-"%char); Re.Star Char.isspace;
    Re.GroupOpen "phone"; Re.Star (Char.not_char "010"%char); Re.GroupClose "phone" ].

(** A cell that the loop over the columns accepts: the organisation name,
    which it skips, or a cell that is a string. *)
Definition field_ok (f : field) : bool :=
  match f with
  | Field k v =>
      String.eqb k "Organisation Name"
      || match v with Some _ => true | None => false end
  | Rest _ => false
  end.

(** A row that is read without an exception: its organisation name is a
    string, and when the name is not blank every other cell is a string and
    no cell is in excess. *)
Definition row_ok (r : row) : bool :=
  match row_get r "Organisation Name" with
  | Some s => if Str.truthy (Str.strip s) then forallb field_ok r else true
  | None => false
  end.

(** A value of an attribute: a trimmed string that is not empty. *)
Definition value_ok (x : string) : Prop := x ≠ "" ∧ Str.strip x = x.

(** No attribute is an empty set, and every value is trimmed and not
    empty. *)
Definition values_ok (m : gmap string (gset string)) : Prop :=
  ∀ key v, m !! key = Some v → v ≠ ∅ ∧ ∀ x, x ∈ v → value_ok x.

(** Every entity of a registry has the property. *)
Definition reg_forall (P : entity (gset string) → Prop) (reg : registry) : Prop :=
  ∀ k e, (k, e) ∈ reg → P e.

(** The phone that [add_phone] adds. *)
Definition phone_set (phone : option string) : gset string :=
  match phone with
  | Some ph => if Str.truthy ph then {[ph]} else ∅
  | None => ∅
  end.

(** The phone read from the person field of a row. *)
Definition row_phones (r : row) : gset string :=
  match row_person r with
  | Some (_, _, phone) => phone_set phone
  | None => ∅
  end.

(** The phones of the person [name] over the rows that mention it. *)
Fixpoint person_phones (name : string) (rows : list row) : gset string :=
  match rows with
  | [] => ∅
  | r :: rows' =>
      (if decide (row_person_name r = Some name) then row_phones r else ∅)
      ∪ person_phones name rows'
  end.

(** The only attribute is the phone number, and it is not an empty set. *)
Definition person_attrs_wf (m : gmap string (gset string)) : Prop :=
  ∀ key v, m !! key = Some v → key = "Phone Number" ∧ v ≠ ∅.

(** A set of values as an attribute: no attribute when it is empty. *)
Definition nonempty_opt (v : gset string) : option (gset string) :=
  if decide (v = ∅) then None else Some v.

(** The attribute [key] of the entity [name] of a type, before [finalize],
    from the rows. *)
Definition final_attrs (ty : entity_type) (name : string) (rows : list row)
    (key : string) : option (gset string) :=
  match ty with
  | Company =>
      if decide (key = "Organisation Name") then None
      else nonempty_opt (column_values name key rows)
  | Person =>
      if decide (key = "Phone Number") then nonempty_opt (person_phones name rows)
      else None
  end.

(** The relationship that is stored for a key. *)
Definition rel_of_key (k : string * string * string) : relationship :=
  Relationship k.1.1 k.1.2
    (if Str.truthy k.2 then Some (Str.lower k.2) else None) None.

(** The relationships are those of the keys [ks], which are the known keys,
    each once. *)
Definition keys_inv (st : state) (ks : list (string * string * string)) : Prop :=
  NoDup ks
  ∧ relation_keys st = list_to_set ks
  ∧ relationships st = rel_of_key <$> ks.

(** The identity of the entity called [n] in a registry. *)
Definition bare_of (reg : registry) (n : string) : option (entity ()) :=
  bare <$> reg_lookup n reg.

(** The key of the relationship of a row, from the identifiers of its person
    and of its company in a state. *)
Definition row_key (st : state) (r : row) : option (string * string * string) :=
  match row_company r, row_person r with
  | Some cname, Some (pname, role, _) =>
      match bare_of (persons st) pname, bare_of (companies st) cname with
      | Some p, Some c => Some (entityId p, entityId c, role_or_empty role)
      | _, _ => None
      end
  | _, _ => None
  end.

(** The entities and the relationships of rows that are parsed. *)
Definition entities_of (rows : list row) : list (entity attr_value) :=
  match parse_rows rows with
  | Ok (ents, _) => ents
  | Raise _ => []
  end.

Definition relationships_of (rows : list row) : list relationship :=
  match parse_rows rows with
  | Ok (_, rels) => rels
  | Raise _ => []
  end.

(** The first entity of the sample file. *)
Definition sample_company : entity attr_value :=
  match sample_entities with
  | e :: _ => e
  | [] => Entity "" Company "" [] ∅
  end.

(** The sample file, and under other names the file upside down and the
    file followed by the rows of [case_rows]. *)
Definition sample_files : file_system := λ p,
  if String.eqb p "reversed.tsv" then Ok (reverse sample_rows)
  else if String.eqb p "longer.tsv" then Ok (sample_rows ++ case_rows)
  else Ok sample_rows.

(** Two rows with roles in lower case. *)
Definition lower_rows : list row :=
  [ [ Field "Organisation Name" (Some "ACME");
      Field "Phone Number" (Some "John (ceo) -123") ];
    [ Field "Organisation Name" (Some "ACME");
      Field "Phone Number" (Some "+65 123 (John, cfo)") ] ].

(** * Properties *)

(** ** Character classes and [str] methods *)

Lemma plus_or_digit_not_letter (c : ascii) :
  Char.is_char "+"%char c || Char.isdigit c = true →
  Char.is_ascii_letter c = false.
Proof. destruct c as [[] [] [] [] [] [] [] []]; vm_compute; congruence. Qed.

Lemma space_not_letter (c : ascii) :
  Char.isspace c = true → Char.is_ascii_letter c = false.
Proof. destruct c as [[] [] [] [] [] [] [] []]; vm_compute; congruence. Qed.

Lemma space_not_plus_or_digit (c : ascii) :
  Char.isspace c = true → Char.is_char "+"%char c || Char.isdigit c = false.
Proof. destruct c as [[] [] [] [] [] [] [] []]; vm_compute; congruence. Qed.

Lemma lstrip_spaces (s : string) :
  Str.forallb Char.isspace s = true → Str.lstrip s = "".
Proof.
  induction s as [|c s IH]; simpl; [done|].
  intros [Hc Hs]%andb_prop. rewrite Hc. auto.
Qed.

Lemma lstrip_head (s : string) (c : ascii) (s' : string) :
  Str.lstrip s = String c s' → Char.isspace c = false.
Proof.
  induction s as [|a s IH]; simpl; [done|].
  destruct (Char.isspace a) eqn:Ha; [done|].
  intros [= <- _]. done.
Qed.

Lemma rstrip_head (s : string) (c : ascii) (s' : string) :
  Str.rstrip s = String c s' → ∃ s0, s = String c s0.
Proof.
  destruct s as [|a s]; simpl; [done|].
  destruct (Str.rstrip s); [destruct (Char.isspace a)|]; intros [= <- _]; eauto.
Qed.

(** The stripped string starts with a character that is not white space. *)
Lemma strip_head (s : string) (c : ascii) (s' : string) :
  Str.strip s = String c s' → Char.isspace c = false.
Proof.
  unfold Str.strip. intros [s0 H]%rstrip_head. by apply lstrip_head in H.
Qed.

Lemma existsb_lstrip (p : ascii → bool) (s : string) :
  Str.existsb p (Str.lstrip s) = true → Str.existsb p s = true.
Proof.
  induction s as [|c s IH]; simpl; [done|].
  destruct (Char.isspace c); simpl; [|done].
  intros H. rewrite (IH H). apply orb_true_r.
Qed.

Lemma existsb_rstrip (p : ascii → bool) (s : string) :
  Str.existsb p (Str.rstrip s) = true → Str.existsb p s = true.
Proof.
  induction s as [|c s IH]; simpl; [done|].
  destruct (Str.rstrip s) as [|a r].
  - destruct (Char.isspace c); simpl; [done|].
    rewrite orb_false_r. intros ->. done.
  - simpl in *. intros [->|H]%orb_prop; [done|].
    rewrite (IH H). apply orb_true_r.
Qed.

Lemma existsb_strip (p : ascii → bool) (s : string) :
  Str.existsb p (Str.strip s) = true → Str.existsb p s = true.
Proof. unfold Str.strip. intros H. by apply existsb_lstrip, existsb_rstrip. Qed.

(** ** The matcher on the first character of a subject *)

Lemma run_group_chr_nil (g : string) (cls : ascii → bool) (p : Re.pattern) :
  Re.match_ (Re.GroupOpen g :: Re.Chr cls :: p) "" = None.
Proof. reflexivity. Qed.

Lemma run_group_chr_reject (g : string) (cls : ascii → bool) (p : Re.pattern)
    (c : ascii) (s : string) :
  cls c = false → Re.match_ (Re.GroupOpen g :: Re.Chr cls :: p) (String c s) = None.
Proof. intros H. unfold Re.match_. cbn [Re.run]. by rewrite H. Qed.

Lemma run_group_chr_accept (g : string) (cls : ascii → bool) (p : Re.pattern)
    (c : ascii) (s : string) (m : Re.match_obj) :
  Re.match_ (Re.GroupOpen g :: Re.Chr cls :: p) (String c s) = Some m → cls c = true.
Proof. unfold Re.match_. cbn [Re.run]. by destruct (cls c). Qed.

(** ** The field interpreter *)

(** C4: the two contact fields of the examples are read as the
    specification says, the first by the first pattern and the second by the
    second pattern and its split at the hyphen. *)
Theorem parse_person_field_examples :
  parse_person_field "Oleg Leonov (CEO-designate) -6221 9876"
    = Some ("Oleg Leonov", Some "CEO-designate", Some "6221 9876")
  ∧ is_Some (Re.match_ pattern_A "Oleg Leonov (CEO-designate) -6221 9876")
  ∧ parse_person_field "+65 6221 9876 (Tan Wee-Head of Compliance)"
    = Some ("Tan Wee", Some "Head of Compliance", Some "+65 6221 9876")
  ∧ Re.match_ pattern_A "+65 6221 9876 (Tan Wee-Head of Compliance)" = None
  ∧ Str.split1 "-"%char "Tan Wee-Head of Compliance"
    = Some ("Tan Wee", "Head of Compliance").
Proof.
  split_and!; [by vm_compute | | by vm_compute | by vm_compute | by vm_compute].
  vm_compute. eauto.
Qed.

(** C9: on a name followed by a parenthesis of white space, the first
    pattern matches and the role returned is the empty string, not [None];
    it becomes [None] only in the stored relationship. *)
Theorem parse_person_field_empty_role :
  parse_person_field "John (   ) -123" = Some ("John", Some "", Some "123")
  ∧ is_Some (Re.match_ pattern_A (Str.strip "John (   ) -123"))
  ∧ stored_role (Some "") = None.
Proof. split_and!; [by vm_compute| |done]. vm_compute. eauto. Qed.

(** ** [extract_year] *)

Lemma app_cons (a : ascii) (s t : string) : String a s +:+ t = String a (s +:+ t).
Proof. reflexivity. Qed.

Lemma app_nil (t : string) : "" +:+ t = t.
Proof. reflexivity. Qed.

Lemma app_snoc (s : string) (c : ascii) (t : string) :
  (s +:+ String c "") +:+ t = s +:+ String c t.
Proof.
  induction s as [|a s IH]; [done|]. rewrite !app_cons. by f_equal.
Qed.

Lemma length_snoc (s : string) (c : ascii) :
  String.length (s +:+ String c "") = S (String.length s).
Proof.
  induction s as [|a s IH]; [done|]. rewrite app_cons. simpl. by f_equal.
Qed.

Lemma digits4_spec (s : string) (y : Z) : digits4 s = Some y ↔ year_prefix s y.
Proof.
  unfold digits4, year_prefix. split.
  - destruct s as [|a [|b [|c [|d rest]]]]; try done.
    destruct (Char.isdigit a) eqn:Ha, (Char.isdigit b) eqn:Hb,
      (Char.isdigit c) eqn:Hc, (Char.isdigit d) eqn:Hd; simpl; try done.
    intros [= <-]. by exists a, b, c, d, rest.
  - intros (a & b & c & d & rest & -> & -> & -> & -> & -> & ->). done.
Qed.

Lemma substring_skip (pre s : string) (n : nat) :
  String.substring (String.length pre) n (pre +:+ s) = String.substring 0 n s.
Proof. induction pre as [|c pre IH]; [done|]. rewrite app_cons. apply IH. Qed.

Lemma run_pattern_year (rest : string) (pos : nat) :
  Re.run pattern_year rest pos [] =
    match digits4 rest with
    | Some _ => Some [Re.End "1" (4 + pos); Re.Start "1" pos]
    | None => None
    end.
Proof.
  unfold pattern_year, digits4. cbn [Re.run].
  destruct rest as [|a [|b [|c [|d rest]]]];
    repeat (match goal with |- context [Char.isdigit ?x] =>
              destruct (Char.isdigit x) end; simpl); done.
Qed.

Lemma group_year (pre rest : string) (y : Z) :
  digits4 rest = Some y →
  Str.int_of_digits
    (Re.group (Re.Match (pre +:+ rest)
                 [Re.End "1" (4 + String.length pre); Re.Start "1" (String.length pre)])
       "1") = y.
Proof.
  unfold Re.group. cbn [Re.start_of Re.end_of Re.marks Re.subject].
  change (String.eqb "1" "1") with true. cbn iota.
  replace (4 + String.length pre - String.length pre) with 4 by lia.
  rewrite substring_skip. unfold digits4.
  destruct rest as [|a [|b [|c [|d rest]]]]; try done.
  destruct (_ && _); [|done]. intros [= <-].
  cbn [String.substring].
  assert (String.substring 0 0 rest = "") as -> by (by destruct rest).
  unfold Str.int_of_digits, digit_value. lia.
Qed.

Lemma search_from_year (pre rest : string) :
  match Re.search_from pattern_year (pre +:+ rest) rest (String.length pre) with
  | Some m => Some (Str.int_of_digits (Re.group m "1"))
  | None => None
  end = first_year rest.
Proof.
  revert pre. induction rest as [|c rest IH]; intros pre.
  - reflexivity.
  - cbn [Re.search_from first_year]. rewrite run_pattern_year.
    destruct (digits4 (String c rest)) as [y|] eqn:Hd.
    + f_equal. by apply group_year.
    + specialize (IH (pre +:+ String c "")).
      by rewrite app_snoc, length_snoc in IH.
Qed.

Lemma extract_year_first_year (filename : string) :
  extract_year filename = first_year filename.
Proof. exact (search_from_year "" filename). Qed.

Lemma first_year_None (s : string) :
  first_year s = None ↔ ∀ pre post y, s = pre +:+ post → ¬ year_prefix post y.
Proof.
  induction s as [|c s IH].
  - split; [|done]. intros _ pre post y Heq.
    destruct pre; [|done]. rewrite app_nil in Heq. subst post.
    rewrite <- digits4_spec. done.
  - cbn [first_year]. destruct (digits4 (String c s)) as [y|] eqn:Hd.
    + split; [done|]. intros H. exfalso.
      apply (H "" (String c s) y); [done|]. by apply digits4_spec.
    + rewrite IH. split.
      * intros H pre post y Heq. destruct pre as [|a pre].
        -- rewrite app_nil in Heq. subst post. rewrite <- digits4_spec. congruence.
        -- rewrite app_cons in Heq. injection Heq as _ Heq. by apply (H pre post y).
      * intros H pre post y Heq. apply (H (String c pre) post y).
        rewrite app_cons. by f_equal.
Qed.

Lemma first_year_Some (s : string) (y : Z) :
  first_year s = Some y ↔
  ∃ pre post, s = pre +:+ post ∧ year_prefix post y
    ∧ ∀ pre' post' y', s = pre' +:+ post' →
        String.length pre' < String.length pre → ¬ year_prefix post' y'.
Proof.
  revert y. induction s as [|c s IH]; intros y.
  - split; [done|]. intros (pre & post & Heq & Hy & _).
    destruct pre; [|done]. rewrite app_nil in Heq. subst post.
    apply digits4_spec in Hy. done.
  - cbn [first_year]. destruct (digits4 (String c s)) as [y0|] eqn:Hd.
    + split.
      * intros [= ->]. exists "", (String c s). split_and!; [done| |].
        -- by apply digits4_spec.
        -- simpl. intros; lia.
      * intros (pre & post & Heq & Hy & Hmin). destruct pre as [|a pre].
        -- rewrite app_nil in Heq. subst post. apply digits4_spec in Hy. congruence.
        -- exfalso. apply (Hmin "" (String c s) y0); [done|simpl; lia|].
           by apply digits4_spec.
    + rewrite IH. split.
      * intros (pre & post & Heq & Hy & Hmin).
        exists (String c pre), post. split_and!; [rewrite app_cons; by f_equal|done|].
        intros pre' post' y' Heq' Hlen. destruct pre' as [|a pre'].
        -- rewrite app_nil in Heq'. subst post'. rewrite <- digits4_spec. congruence.
        -- rewrite app_cons in Heq'. simpl in Hlen. injection Heq' as _ Heq'.
           apply (Hmin pre' post' y'); [done|lia].
      * intros (pre & post & Heq & Hy & Hmin). destruct pre as [|a pre].
        -- rewrite app_nil in Heq. subst post. apply digits4_spec in Hy. congruence.
        -- rewrite app_cons in Heq. injection Heq as _ Heq. exists pre, post.
           split_and!; [done|done|].
           intros pre' post' y' Heq' Hlen.
           apply (Hmin (String c pre') post' y');
             [rewrite app_cons; by f_equal|simpl; lia].
Qed.

(** ** The matcher, one item at a time *)

Lemma run_Chr (c : ascii → bool) (p : Re.pattern) (a : ascii) (s : string)
    (pos : nat) (m : list Re.mark) :
  Re.run (Re.Chr c :: p) (String a s) pos m =
    if c a then Re.run p s (S pos) m else None.
Proof. reflexivity. Qed.

Lemma run_GroupOpen (g : string) (p : Re.pattern) (s : string) (pos : nat)
    (m : list Re.mark) :
  Re.run (Re.GroupOpen g :: p) s pos m = Re.run p s pos (Re.Start g pos :: m).
Proof. reflexivity. Qed.

Lemma run_GroupClose (g : string) (p : Re.pattern) (s : string) (pos : nat)
    (m : list Re.mark) :
  Re.run (Re.GroupClose g :: p) s pos m = Re.run p s pos (Re.End g pos :: m).
Proof. reflexivity. Qed.

Lemma run_Plus (c : ascii → bool) (p : Re.pattern) (a : ascii) (s : string)
    (pos : nat) (m : list Re.mark) :
  Re.run (Re.Plus c :: p) (String a s) pos m =
    if c a then Re.run (Re.Star c :: p) s (S pos) m else None.
Proof. reflexivity. Qed.

Lemma run_Star_nil (c : ascii → bool) (p : Re.pattern) (pos : nat)
    (m : list Re.mark) :
  Re.run (Re.Star c :: p) "" pos m = Re.run p "" pos m.
Proof. reflexivity. Qed.

Lemma run_Star_cons (c : ascii → bool) (p : Re.pattern) (a : ascii) (s : string)
    (pos : nat) (m : list Re.mark) :
  Re.run (Re.Star c :: p) (String a s) pos m =
    if c a then
      match Re.run (Re.Star c :: p) s (S pos) m with
      | Some r => Some r
      | None => Re.run p (String a s) pos m
      end
    else Re.run p (String a s) pos m.
Proof. reflexivity. Qed.

Lemma run_LazyStar (c : ascii → bool) (p : Re.pattern) (s : string) (pos : nat)
    (m : list Re.mark) :
  Re.run (Re.LazyStar c :: p) s pos m =
    match Re.run p s pos m with
    | Some r => Some r
    | None =>
        match s with
        | String a s' => if c a then Re.run (Re.LazyStar c :: p) s' (S pos) m else None
        | "" => None
        end
    end.
Proof. by destruct s. Qed.

(** A greedy star takes a whole run of the class when the rest of the
    pattern matches after it. *)
Lemma run_Star_all (c : ascii → bool) (p : Re.pattern) (x tail : string)
    (pos : nat) (m r : list Re.mark) :
  Str.forallb c x = true →
  (∀ a t, tail = String a t → c a = false) →
  Re.run p tail (String.length x + pos) m = Some r →
  Re.run (Re.Star c :: p) (x +:+ tail) pos m = Some r.
Proof.
  revert pos. induction x as [|b x IH]; intros pos Hx Htail Hr.
  - rewrite app_nil. simpl in Hr. destruct tail as [|a t].
    + by rewrite run_Star_nil.
    + by rewrite run_Star_cons, (Htail a t eq_refl).
  - simpl in Hx. apply andb_prop in Hx as [Hb Hx].
    rewrite app_cons, run_Star_cons, Hb, (IH (S pos)); [done..|].
    by rewrite <- Hr, Nat.add_succ_r.
Qed.

(** What a greedy star took, when the pattern matched. *)
Lemma run_Star_inv (c : ascii → bool) (p : Re.pattern) (s : string)
    (pos : nat) (m r : list Re.mark) :
  Re.run (Re.Star c :: p) s pos m = Some r →
  ∃ y t, s = y +:+ t ∧ Str.forallb c y = true
    ∧ Re.run p t (String.length y + pos) m = Some r.
Proof.
  revert pos. induction s as [|a s IH]; intros pos.
  - rewrite run_Star_nil. intros H. by exists "", "".
  - rewrite run_Star_cons. destruct (c a) eqn:Ha.
    + destruct (Re.run (Re.Star c :: p) s (S pos) m) as [r'|] eqn:Hs.
      * intros [= <-]. destruct (IH _ Hs) as (y & t & -> & Hy & Hr).
        exists (String a y), t. rewrite app_cons. simpl. rewrite Ha, Hy.
        split_and!; [done..|]. by rewrite <- Hr, Nat.add_succ_r.
      * intros H. by exists "", (String a s).
    + intros H. by exists "", (String a s).
Qed.

Lemma is_char_eq (x c : ascii) : Char.is_char x c = true → c = x.
Proof.
  unfold Char.is_char, Char.code. intros H%N.eqb_eq.
  by rewrite <- (ascii_N_embedding c), <- (ascii_N_embedding x), H.
Qed.

Lemma is_char_refl (x : ascii) : Char.is_char x x = true.
Proof. unfold Char.is_char. apply N.eqb_refl. Qed.

(** The first occurrence of a character splits a string in one way. *)
Lemma app_first_char (a : ascii) (y x t u : string) :
  Str.forallb (Char.not_char a) y = true →
  Str.forallb (Char.not_char a) x = true →
  y +:+ String a t = x +:+ String a u → y = x ∧ t = u.
Proof.
  revert x. induction y as [|b y IH]; intros [|b' x] Hy Hx; rewrite ?app_nil, ?app_cons.
  - by intros [= ->].
  - intros [= <- _]. simpl in Hx. unfold Char.not_char in Hx.
    by rewrite is_char_refl in Hx.
  - intros [= -> _]. simpl in Hy. unfold Char.not_char in Hy.
    by rewrite is_char_refl in Hy.
  - simpl in Hy, Hx. apply andb_prop in Hy as [_ Hy]. apply andb_prop in Hx as [_ Hx].
    intros [= -> H]. destruct (IH _ Hy Hx H) as [-> ->]. done.
Qed.

Lemma forallb_app (p : ascii → bool) (x y : string) :
  Str.forallb p (x +:+ y) = Str.forallb p x && Str.forallb p y.
Proof.
  induction x as [|a x IH]; [done|]. rewrite app_cons. simpl.
  by rewrite IH, andb_assoc.
Qed.

Lemma forallb_impl (p q : ascii → bool) (x : string) :
  (∀ a, p a = true → q a = true) → Str.forallb p x = true → Str.forallb q x = true.
Proof.
  intros Hpq. induction x as [|a x IH]; [done|]. simpl.
  intros [Ha Hx]%andb_prop. by rewrite (Hpq a Ha), IH.
Qed.

Lemma app_assoc_s (x y z : string) : (x +:+ y) +:+ z = x +:+ y +:+ z.
Proof. induction x as [|a x IH]; [done|]. rewrite !app_cons. by f_equal. Qed.

Lemma length_app_s (x y : string) :
  String.length (x +:+ y) = String.length x + String.length y.
Proof. induction x as [|a x IH]; [done|]. rewrite app_cons. simpl. by f_equal. Qed.

Lemma substring_prefix (x y : string) :
  String.substring 0 (String.length x) (x +:+ y) = x.
Proof.
  induction x as [|a x IH]; [by destruct y|]. rewrite app_cons. simpl. by f_equal.
Qed.

Lemma run_Chr_nil (c : ascii → bool) (p : Re.pattern) (pos : nat) (m : list Re.mark) :
  Re.run (Re.Chr c :: p) "" pos m = None.
Proof. reflexivity. Qed.

Lemma space_not_open (c : ascii) :
  Char.isspace c = true → Char.not_char "("%char c = true.
Proof. destruct c as [[] [] [] [] [] [] [] []]; vm_compute; congruence. Qed.

(** ** The second pattern on a phone followed by a parenthesis *)

Section PatternB.

Variables ws inside rest : string.
Hypothesis Hws : Str.forallb Char.isspace ws = true.
Hypothesis Hne : inside ≠ "".
Hypothesis Hinside : Str.forallb (Char.not_char ")"%char) inside = true.

Lemma run_paren_group (pos : nat) (m : list Re.mark) :
  Re.run (drop 2 pattern_B_tail) (parenthesized inside rest) pos m =
    Some (Re.End "inside" (S pos + String.length inside)
          :: Re.Start "inside" (S pos) :: m).
Proof.
  unfold parenthesized. cbn [drop pattern_B_tail].
  rewrite run_Chr, is_char_refl, run_GroupOpen.
  destruct inside as [|i0 inside']; [done|].
  simpl in Hinside. apply andb_prop in Hinside as [Hi0 Hin'].
  rewrite app_cons, run_Plus, Hi0.
  apply run_Star_all; [done| |].
  - intros a t [= <- _]. unfold Char.not_char. by rewrite is_char_refl.
  - rewrite run_GroupClose, run_Chr, is_char_refl. cbn [Re.run String.length].
    do 3 f_equal. lia.
Qed.

Lemma run_tail_here (pos : nat) (m : list Re.mark) :
  Re.run pattern_B_tail (ws +:+ parenthesized inside rest) pos m =
    Some (Re.End "inside" (S (String.length ws + pos) + String.length inside)
          :: Re.Start "inside" (S (String.length ws + pos))
          :: Re.End "phone" pos :: m).
Proof.
  unfold pattern_B_tail at 1. rewrite run_GroupClose.
  apply run_Star_all; [done| |].
  - intros a t [= <- _]. reflexivity.
  - apply run_paren_group.
Qed.

Lemma run_tail_inv (x : string) (pos : nat) (m r : list Re.mark) :
  Str.forallb no_paren x = true →
  Re.run pattern_B_tail (x +:+ ws +:+ parenthesized inside rest) pos m = Some r →
  r = Re.End "inside" (S (String.length x + String.length ws + pos) + String.length inside)
      :: Re.Start "inside" (S (String.length x + String.length ws + pos))
      :: Re.End "phone" pos :: m.
Proof.
  intros Hx. unfold pattern_B_tail at 1. rewrite run_GroupClose.
  intros (y & t & Heq & Hy & Hr)%run_Star_inv.
  destruct t as [|a t]; [by rewrite run_Chr_nil in Hr|].
  pose proof Hr as Hr'. rewrite run_Chr in Hr'.
  destruct (Char.is_char "(" a) eqn:Ha; [|done]. clear Hr'.
  apply is_char_eq in Ha as ->.
  rewrite <- app_assoc_s in Heq. unfold parenthesized in Heq. symmetry in Heq.
  apply app_first_char in Heq as [-> ->].
  - fold (parenthesized inside rest) in Hr. change (Re.Chr _ :: _) with (drop 2 pattern_B_tail) in Hr.
    rewrite run_paren_group in Hr. injection Hr as <-.
    by rewrite length_app_s.
  - eapply forallb_impl; [apply space_not_open|done].
  - rewrite forallb_app. apply andb_true_intro. split.
    + eapply forallb_impl; [|exact Hx]. unfold no_paren. by intros a [? _]%andb_prop.
    + eapply forallb_impl; [apply space_not_open|done].
Qed.

Lemma run_lazy_phone (x : string) (pos : nat) (m : list Re.mark) :
  Str.forallb no_paren x = true →
  ∃ r, Re.run (Re.LazyStar no_paren :: pattern_B_tail) (x +:+ ws +:+ parenthesized inside rest) pos m = Some r
    ∧ Re.start_of "inside" r = Some (S (String.length x + String.length ws + pos))
    ∧ Re.end_of "inside" r
      = Some (S (String.length x + String.length ws + pos) + String.length inside).
Proof.
  revert pos. induction x as [|b x IH]; intros pos Hx; rewrite run_LazyStar.
  - rewrite app_nil, run_tail_here. eexists. split; [done|]. by split.
  - destruct (Re.run pattern_B_tail _ pos m) as [r|] eqn:Hr.
    + apply run_tail_inv in Hr as ->; [|done]. eexists. split; [done|]. by split.
    + simpl in Hx. apply andb_prop in Hx as [Hb Hx].
      rewrite app_cons, Hb. destruct (IH (S pos) Hx) as (r & -> & Hs & He).
      exists r. split; [done|]. cbn [String.length].
      by rewrite Nat.add_succ_r in Hs, He.
Qed.

(** A phone that starts with [+] or a digit, white space and a parenthesis
    are matched by the second pattern, whose group [inside] is the text
    between the parentheses. *)
Lemma match_pattern_B_shape (c0 : ascii) (pre : string) :
  Char.is_char "+"%char c0 || Char.isdigit c0 = true →
  Str.forallb no_paren pre = true →
  ∃ m, Re.match_ pattern_B (String c0 (pre +:+ ws +:+ parenthesized inside rest)) = Some m
    ∧ Re.group m "inside" = inside.
Proof.
  intros Hc0 Hpre. unfold Re.match_, pattern_B.
  rewrite run_GroupOpen, run_Chr, Hc0.
  change (Re.LazyStar _ :: _) with (Re.LazyStar no_paren :: pattern_B_tail).
  destruct (run_lazy_phone pre 1 [Re.Start "phone" 0] Hpre) as (r & -> & Hs & He).
  eexists. split; [done|]. unfold Re.group. cbn [Re.marks Re.subject].
  rewrite Hs, He.
  replace (_ + String.length inside - _) with (String.length inside) by lia.
  cbn [String.substring]. unfold parenthesized.
  replace (pre +:+ ws +:+ String "(" (inside +:+ String ")" rest))
    with ((pre +:+ ws +:+ String "(" "") +:+ inside +:+ String ")" rest).
  2:{ by rewrite !app_assoc_s. }
  replace (String.length pre + String.length ws + 1)
    with (String.length (pre +:+ ws +:+ String "(" "")).
  2:{ rewrite !length_app_s. simpl. lia. }
  by rewrite substring_skip, substring_prefix.
Qed.

End PatternB.

Lemma plus_or_digit_not_space (c : ascii) :
  Char.is_char "+"%char c || Char.isdigit c = true → Char.isspace c = false.
Proof. destruct c as [[] [] [] [] [] [] [] []]; vm_compute; congruence. Qed.

Lemma rstrip_app_nonspace (a : string) (b : ascii) (t : string) :
  Char.isspace b = false →
  Str.rstrip (a +:+ String b t) = a +:+ String b (Str.rstrip t).
Proof.
  intros Hb. induction a as [|x a IH].
  - rewrite !app_nil. simpl. destruct (Str.rstrip t); [by rewrite Hb|done].
  - rewrite !app_cons. simpl. rewrite IH. by destruct a.
Qed.

Lemma strip_phone_parenthesized (c0 : ascii) (pre ws inside rest : string) :
  Char.isspace c0 = false →
  Str.strip (String c0 (pre +:+ ws +:+ parenthesized inside rest)) =
    String c0 (pre +:+ ws +:+ parenthesized inside (Str.rstrip rest)).
Proof.
  intros Hc0. unfold Str.strip, parenthesized. simpl. rewrite Hc0.
  replace (String c0 (pre +:+ ws +:+ String "(" (inside +:+ String ")" rest)))
    with ((String c0 (pre +:+ ws +:+ String "(" inside)) +:+ String ")" rest).
  2:{ rewrite app_cons. f_equal. rewrite !app_assoc_s. by rewrite app_cons. }
  rewrite rstrip_app_nonspace by done.
  rewrite app_cons. f_equal. rewrite !app_assoc_s. by rewrite app_cons.
Qed.

(** ** Inputs that are not found *)

Lemma not_found_of_match_B (value : string) (m : Re.match_obj) :
  Re.match_ pattern_B (Str.strip value) = Some m →
  Str.existsb Char.isalpha (Re.group m "inside") = false →
  parse_person_field value = None.
Proof.
  intros Hm Hin. unfold parse_person_field.
  destruct (negb (Str.truthy value)); [done|].
  destruct (Str.strip value) as [|c s] eqn:Hs; [done|].
  apply run_group_chr_accept in Hm as Hc.
  unfold pattern_A at 1.
  rewrite run_group_chr_reject by (by apply plus_or_digit_not_letter).
  rewrite Hm.
  destruct (Str.existsb Char.isalpha (Str.strip (Re.group m "inside"))) eqn:Hx;
    [|done].
  apply existsb_strip in Hx. congruence.
Qed.

(** C5: an empty or white-space input is not found; and neither is an input
    that the second pattern matches with no letter inside its parentheses,
    such as a phone that starts with [+] or a digit followed by a parenthesis
    without a letter. *)
Theorem parse_person_field_not_found :
  (∀ value, Str.forallb Char.isspace value = true →
     parse_person_field value = None)
  ∧ (∀ value m,
       Re.match_ pattern_B (Str.strip value) = Some m →
       Str.existsb Char.isalpha (Re.group m "inside") = false →
       parse_person_field value = None)
  ∧ (∀ c0 pre ws inside rest,
       Char.is_char "+"%char c0 || Char.isdigit c0 = true →
       Str.forallb no_paren pre = true →
       Str.forallb Char.isspace ws = true →
       inside ≠ "" →
       Str.forallb (Char.not_char ")"%char) inside = true →
       Str.existsb Char.isalpha inside = false →
       parse_person_field (String c0 (pre +:+ ws +:+ parenthesized inside rest))
       = None).
Proof.
  split_and!.
  - intros value Hsp. unfold parse_person_field.
    destruct (negb (Str.truthy value)); [done|].
    unfold Str.strip. rewrite (lstrip_spaces _ Hsp). reflexivity.
  - apply not_found_of_match_B.
  - intros c0 pre ws inside rest Hc0 Hpre Hws Hne Hin Halpha.
    destruct (match_pattern_B_shape ws inside (Str.rstrip rest) Hws Hne Hin c0 pre
                Hc0 Hpre) as (m & Hm & Hg).
    apply (not_found_of_match_B _ m).
    + by rewrite strip_phone_parenthesized by (by apply plus_or_digit_not_space).
    + by rewrite Hg.
Qed.

Lemma parse_person_field_not_found_witness :
  parse_person_field "   " = None
  ∧ parse_person_field "+65 6221 1234 (10)" = None
  ∧ parse_person_field "+65 6221 1234  (10) ext" = None.
Proof.
  split_and!.
  - apply (proj1 parse_person_field_not_found). reflexivity.
  - eapply (proj1 (proj2 parse_person_field_not_found)); vm_compute; reflexivity.
  - apply (proj2 (proj2 parse_person_field_not_found)
             "+"%char "65 6221 1234" "  " "10" " ext"); by vm_compute.
Defined.

(** ** Lists of first occurrences *)

Lemma elem_of_first_seen (l : list string) (x : string) :
  x ∈ first_seen l ↔ x ∈ l.
Proof.
  induction l as [|y l IH]; simpl; [done|].
  rewrite !elem_of_cons, list_elem_of_filter, IH.
  destruct (decide (x = y)); naive_solver.
Qed.

Lemma NoDup_first_seen (l : list string) : NoDup (first_seen l).
Proof.
  induction l as [|y l IH]; simpl; [constructor|].
  constructor; [|by apply NoDup_filter].
  rewrite list_elem_of_filter. naive_solver.
Qed.

Lemma foldl_add_seen (os : list (option string)) (l0 : list string) :
  foldl add_seen l0 os = l0 ++ filter (λ x, x ∉ l0) (first_seen (omap id os)).
Proof.
  revert l0. induction os as [|[n|] os IH]; intros l0; simpl.
  - by rewrite app_nil_r.
  - rewrite IH. destruct (decide (n ∈ l0)) as [Hin|Hin].
    + f_equal. rewrite filter_cons_False by naive_solver.
      rewrite list_filter_filter. apply list_filter_iff. intros x.
      split; [|naive_solver]. intros Hx. split; [done|]. congruence.
    + rewrite <- app_assoc. f_equal. simpl.
      rewrite filter_cons_True by done. f_equal.
      rewrite list_filter_filter. apply list_filter_iff. intros x.
      rewrite elem_of_app, list_elem_of_singleton. naive_solver.
  - apply IH.
Qed.

Lemma filter_all {A : Type} (P : A → Prop) `{!∀ x, Decision (P x)} (l : list A) :
  (∀ x, x ∈ l → P x) → filter P l = l.
Proof.
  induction l as [|y l IH]; intros Hall; [done|].
  rewrite filter_cons_True by (apply Hall; by left).
  f_equal. apply IH. intros x Hx. apply Hall. by right.
Qed.


Lemma foldl_add_seen_nil (os : list (option string)) :
  foldl add_seen [] os = first_seen (omap id os).
Proof.
  rewrite foldl_add_seen. simpl. apply filter_all.
  intros x _. apply not_elem_of_nil.
Qed.

(** ** Registries *)

Lemma eqb_decide (a b : string) : String.eqb a b = bool_decide (a = b).
Proof.
  destruct (String.eqb_spec a b);
    [by rewrite bool_decide_true | by rewrite bool_decide_false].
Qed.

Lemma reg_lookup_None (n : string) (reg : registry) :
  reg_lookup n reg = None ↔ n ∉ names reg.
Proof.
  unfold names. induction reg as [|[k e] reg IH]; simpl.
  - split; [intros _; apply not_elem_of_nil|done].
  - rewrite eqb_decide, not_elem_of_cons. case_bool_decide; naive_solver.
Qed.

Lemma reg_lookup_Some (n : string) (reg : registry) (e : entity (gset string)) :
  reg_lookup n reg = Some e → (n, e) ∈ reg.
Proof.
  induction reg as [|[k e0] reg IH]; simpl; [done|].
  rewrite eqb_decide. case_bool_decide; [|right; auto].
  intros [= ->]. subst k. by left.
Qed.

Lemma reg_lookup_app (n : string) (reg reg' : registry) :
  reg_lookup n (reg ++ reg') =
    match reg_lookup n reg with
    | Some e => Some e
    | None => reg_lookup n reg'
    end.
Proof.
  induction reg as [|[k e0] reg IH]; simpl; [done|].
  by destruct (String.eqb k n).
Qed.

Lemma names_reg_store (n : string) (e : entity (gset string)) (reg : registry) :
  names (reg_store n e reg) = names reg.
Proof.
  unfold names. induction reg as [|[k e0] reg IH]; simpl; [done|].
  destruct (String.eqb k n); simpl; by f_equal.
Qed.

Lemma reg_lookup_store (n n' : string) (e : entity (gset string)) (reg : registry) :
  reg_lookup n' (reg_store n e reg) =
    if decide (n' = n) then (λ _, e) <$> reg_lookup n reg else reg_lookup n' reg.
Proof.
  induction reg as [|[k e0] reg IH]; simpl.
  - by destruct (decide (n' = n)).
  - rewrite !eqb_decide.
    destruct (decide (n' = n)) as [->|Hn], (decide (k = n)) as [->|Hk].
    + rewrite !bool_decide_true by done. simpl.
      by rewrite eqb_decide, bool_decide_true.
    + rewrite !bool_decide_false by done. simpl.
      by rewrite eqb_decide, bool_decide_false.
    + rewrite bool_decide_true by done. simpl.
      rewrite eqb_decide. by rewrite !(bool_decide_false (n = n')) by congruence.
    + rewrite (bool_decide_false (k = n)) by done. simpl.
      rewrite eqb_decide. by case_bool_decide.
Qed.

Lemma skeleton_reg_store (n : string) (e e' : entity (gset string)) (reg : registry) :
  reg_lookup n reg = Some e → bare e' = bare e →
  skeleton (reg_store n e' reg) = skeleton reg.
Proof.
  intros Hl Hb. induction reg as [|[k e0] reg IH]; simpl in *; [done|].
  destruct (String.eqb k n); simpl.
  - injection Hl as ->. by rewrite Hb.
  - f_equal. auto.
Qed.

Lemma names_skeleton (reg : registry) : (skeleton reg).*1 = names reg.
Proof. unfold skeleton, names. induction reg; simpl; by f_equal. Qed.

Lemma get_or_create_lookup (ty : entity_type) (n : string) (reg : registry) :
  reg_lookup n (get_or_create ty n reg).1 = Some (get_or_create ty n reg).2.
Proof.
  unfold get_or_create. destruct (reg_lookup n reg) eqn:Hl; simpl; [done|].
  rewrite reg_lookup_app, Hl. simpl. by rewrite String.eqb_refl.
Qed.

Lemma get_or_create_lookup_ne (ty : entity_type) (n n' : string) (reg : registry) :
  n' ≠ n → reg_lookup n' (get_or_create ty n reg).1 = reg_lookup n' reg.
Proof.
  intros Hne. unfold get_or_create. destruct (reg_lookup n reg) eqn:Hl; simpl; [done|].
  rewrite reg_lookup_app. destruct (reg_lookup n' reg); [done|]. simpl.
  rewrite eqb_decide. by rewrite bool_decide_false.
Qed.

Lemma get_or_create_skeleton (ty : entity_type) (n : string) (reg : registry) :
  skeleton (get_or_create ty n reg).1 =
    if decide (n ∈ names reg) then skeleton reg
    else skeleton reg ++ [(n, bare (new_entity ty (length reg) n))].
Proof.
  unfold get_or_create. destruct (reg_lookup n reg) eqn:Hl; simpl.
  - rewrite decide_True; [done|].
    destruct (decide (n ∈ names reg)) as [|Hn]; [done|].
    apply reg_lookup_None in Hn. congruence.
  - apply reg_lookup_None in Hl. rewrite decide_False by done.
    unfold skeleton. by rewrite fmap_app.
Qed.

Lemma get_or_create_attributes (ty : entity_type) (n : string) (reg : registry) :
  attributes (get_or_create ty n reg).2 =
    match reg_lookup n reg with
    | Some e => attributes e
    | None => ∅
    end.
Proof. unfold get_or_create. by destruct (reg_lookup n reg). Qed.

(** ** One row *)

Lemma bare_add_attribute (k v : string) (e : entity (gset string)) :
  bare (add_attribute k v e) = bare e.
Proof. reflexivity. Qed.

Lemma bare_add_phone (phone : option string) (e : entity (gset string)) :
  bare (add_phone phone e) = bare e.
Proof. unfold add_phone. destruct phone as [ph|]; [destruct (Str.truthy ph)|]; done. Qed.

Lemma bare_add_field (comp comp' : entity (gset string)) (f : field) :
  add_field comp f = Ok comp' → bare comp' = bare comp.
Proof.
  destruct f as [k [v|]|vs]; simpl; [| |done].
  - destruct (String.eqb k _); [by intros [= <-]|]. simpl.
    destruct (negb _); by intros [= <-].
  - destruct (String.eqb k _); [by intros [= <-]|done].
Qed.

Lemma bare_for_each_add_field (r : row) (comp comp' : entity (gset string)) :
  for_each add_field r comp = Ok comp' → bare comp' = bare comp.
Proof.
  revert comp. induction r as [|f r IH]; intros comp; simpl.
  - by intros [= <-].
  - destruct (add_field comp f) as [c1|] eqn:Hf; [|done]. simpl.
    intros H. rewrite (IH _ H). by eapply bare_add_field.
Qed.

Lemma truthy_false (s : string) : Str.truthy s = false ↔ s = "".
Proof. by destruct s. Qed.

Lemma truthy_true (s : string) : Str.truthy s = true ↔ s ≠ "".
Proof. by destruct s. Qed.

(** What a row does to the state, when it is read without an exception. *)
Lemma process_row_Ok (st st' : state) (r : row) :
  process_row st r = Ok st' →
  match row_company r with
  | None => st' = st
  | Some cname =>
      let gc := get_or_create Company cname (companies st) in
      ∃ comp',
        for_each add_field r gc.2 = Ok comp'
        ∧ companies st' = reg_store cname comp' gc.1
        ∧ match row_person r with
          | None =>
              persons st' = persons st
              ∧ relationships st' = relationships st
              ∧ relation_keys st' = relation_keys st
          | Some (pname, role, phone) =>
              let gp := get_or_create Person pname (persons st) in
              persons st' = reg_store pname (add_phone phone gp.2) gp.1
              ∧ (relationships st', relation_keys st') =
                  add_relationship (add_phone phone gp.2) comp' role
                    (relationships st, relation_keys st)
          end
  end.
Proof.
  unfold process_row, row_company.
  destruct (row_get r "Organisation Name") as [s|]; [|done]. simpl.
  destruct (Str.truthy (Str.strip s)); simpl; [|by intros [= <-]].
  destruct (get_or_create Company (Str.strip s) (companies st)) as [c1 comp] eqn:Hgc.
  simpl. destruct (for_each add_field r comp) as [comp'|] eqn:Hloop; [|done]. simpl.
  destruct (row_person r) as [[[pname role] phone]|].
  - destruct (get_or_create Person pname (persons st)) as [p1 person] eqn:Hgp.
    destruct (add_relationship _ _ _ _) as [rels keys] eqn:Hrel.
    intros [= <-]. simpl. exists comp'. by rewrite Hrel.
  - intros [= <-]. simpl. by exists comp'.
Qed.

Lemma for_each_add_field_total (r : row) (comp : entity (gset string)) :
  rectangular r → ∃ comp', for_each add_field r comp = Ok comp'.
Proof.
  intros Hr. revert comp. induction Hr as [|f r (k & v & ->) _ IH]; intros comp.
  - by eexists.
  - simpl. destruct (String.eqb k _); simpl; [apply IH|].
    destruct (negb _); apply IH.
Qed.

Lemma row_get_rectangular (r : row) (key : string) :
  rectangular r → is_Some (row_get r key).
Proof.
  induction 1 as [|f r (k & v & ->) _ IH]; simpl; [done|].
  by destruct (String.eqb k key).
Qed.

Lemma process_row_total (st : state) (r : row) :
  rectangular r → ∃ st', process_row st r = Ok st'.
Proof.
  intros Hr. unfold process_row.
  destruct (row_get_rectangular r "Organisation Name" Hr) as [s ->]. simpl.
  destruct (negb _); [by eexists|].
  destruct (get_or_create _ _ _) as [c1 comp].
  destruct (for_each_add_field_total r comp Hr) as [comp' ->]. simpl.
  destruct (row_person r) as [[[pname role] phone]|]; [|by eexists].
  destruct (get_or_create _ _ _) as [p1 person].
  destruct (add_relationship _ _ _ _). by eexists.
Qed.

Lemma for_each_total (rows : list row) (st : state) :
  Forall rectangular rows → ∃ st', for_each process_row rows st = Ok st'.
Proof.
  intros Hr. revert st. induction Hr as [|r rows Hr _ IH]; intros st.
  - by eexists.
  - simpl. destruct (process_row_total st r Hr) as [st1 ->]. simpl. apply IH.
Qed.

Lemma for_each_app {S A : Type} (body : S → A → result S) (l1 l2 : list A) (st : S) :
  for_each body (l1 ++ l2) st = (st' ← for_each body l1 st; for_each body l2 st').
Proof.
  revert st. induction l1 as [|x l1 IH]; intros st; simpl; [done|].
  destruct (body st x); simpl; [apply IH|done].
Qed.

(** ** The registries along the rows *)

Lemma reg_wf_nil (ty : entity_type) : reg_wf ty [].
Proof. reflexivity. Qed.

Lemma names_get_or_create (ty : entity_type) (n : string) (reg : registry) :
  names (get_or_create ty n reg).1 = add_seen (names reg) (Some n).
Proof.
  rewrite <- (names_skeleton (get_or_create ty n reg).1), get_or_create_skeleton.
  unfold add_seen. destruct (decide (n ∈ names reg)); [apply names_skeleton|].
  by rewrite fmap_app, names_skeleton.
Qed.

Lemma reg_wf_get_or_create (ty : entity_type) (n : string) (reg : registry) :
  reg_wf ty reg → reg_wf ty (get_or_create ty n reg).1.
Proof.
  unfold reg_wf. intros Hwf.
  rewrite names_get_or_create, get_or_create_skeleton. simpl.
  destruct (decide (n ∈ names reg)); [done|].
  rewrite imap_app, <- Hwf. simpl. do 3 f_equal.
  unfold names. rewrite length_fmap. unfold numbered. simpl.
  by rewrite Nat.add_0_r.
Qed.

Lemma reg_wf_reg_store (ty : entity_type) (n : string)
    (e e' : entity (gset string)) (reg : registry) :
  reg_lookup n reg = Some e → bare e' = bare e →
  reg_wf ty reg → reg_wf ty (reg_store n e' reg).
Proof.
  unfold reg_wf. intros Hl Hb Hwf.
  by rewrite names_reg_store, (skeleton_reg_store _ _ _ _ Hl Hb).
Qed.

Lemma process_row_registry (ty : entity_type) (st st' : state) (r : row) :
  process_row st r = Ok st' →
  names (registry_of ty st') = add_seen (names (registry_of ty st)) (row_name ty r)
  ∧ (reg_wf ty (registry_of ty st) → reg_wf ty (registry_of ty st')).
Proof.
  intros H%process_row_Ok. unfold row_name, row_person_name.
  destruct (row_company r) as [cname|]; [|by subst st'; destruct ty].
  simpl in H. destruct H as (comp' & Hloop & Hc & Hp).
  apply bare_for_each_add_field in Hloop.
  destruct ty; simpl.
  - rewrite Hc, names_reg_store, names_get_or_create. split; [done|].
    intros Hwf. eapply reg_wf_reg_store;
      [apply get_or_create_lookup|done|by apply reg_wf_get_or_create].
  - destruct (row_person r) as [[[pname role] phone]|].
    + destruct Hp as [-> _].
      rewrite names_reg_store, names_get_or_create. split; [done|].
      intros Hwf. eapply reg_wf_reg_store;
        [apply get_or_create_lookup|apply bare_add_phone|by apply reg_wf_get_or_create].
    + by destruct Hp as [-> _].
Qed.

Lemma for_each_registry (ty : entity_type) (rows : list row) (st st' : state) :
  for_each process_row rows st = Ok st' →
  names (registry_of ty st') =
    foldl add_seen (names (registry_of ty st)) (row_name ty <$> rows)
  ∧ (reg_wf ty (registry_of ty st) → reg_wf ty (registry_of ty st')).
Proof.
  revert st. induction rows as [|r rows IH]; intros st; simpl.
  - by intros [= <-].
  - destruct (process_row st r) as [st1|] eqn:Hr; [|done]. simpl.
    intros H. destruct (IH _ H) as [IH1 IH2].
    destruct (process_row_registry ty _ _ _ Hr) as [H1 H2].
    rewrite IH1, H1. auto.
Qed.

(** ** The result of the pipeline *)

Lemma parse_rows_Ok (rows : list row) (ents : list (entity attr_value))
    (rels : list relationship) :
  parse_rows rows = Ok (ents, rels) →
  ∃ st, for_each process_row rows initial_state = Ok st
    ∧ ents = finalize_all (companies st)
             ++ finalize_all (persons st)
    ∧ rels = relationships st.
Proof.
  unfold parse_rows.
  destruct (for_each process_row rows initial_state) as [st|]; [|done].
  simpl. intros [= <- <-]. by exists st.
Qed.

Lemma parse_mas_fid_Ok (fs : file_system) (file_path : string) (rows : list row)
    (ents : list (entity attr_value)) (rels : list relationship) :
  fs file_path = Ok rows →
  parse_mas_fid fs file_path = Ok (ents, rels) →
  ∃ st, for_each process_row rows initial_state = Ok st
    ∧ ents = finalize_all (companies st)
             ++ finalize_all (persons st)
    ∧ rels = relationships st.
Proof. unfold parse_mas_fid. intros ->. apply parse_rows_Ok. Qed.

(** A file whose lines all have the length of the header is parsed. *)
Lemma parse_mas_fid_total (fs : file_system) (file_path : string) (rows : list row) :
  fs file_path = Ok rows → Forall rectangular rows →
  ∃ out, parse_mas_fid fs file_path = Ok out.
Proof.
  intros Hf Hr. unfold parse_mas_fid, parse_rows. rewrite Hf. simpl.
  destruct (for_each_total rows initial_state Hr) as [st ->]. by eexists.
Qed.

Lemma bare_finalized (ty : entity_type) (reg : registry) :
  reg_wf ty reg →
  bare <$> finalize_all reg = imap (numbered ty) (names reg).
Proof.
  unfold reg_wf. intros Hwf.
  transitivity ((skeleton reg).*2).
  - unfold skeleton, finalize_all. rewrite <- !list_fmap_compose.
    by apply list_fmap_ext.
  - rewrite Hwf. by rewrite fmap_imap.
Qed.

Lemma omap_id_fmap {A B : Type} (f : A → option B) (l : list A) :
  omap id (f <$> l) = omap f l.
Proof.
  induction l as [|x l IH]; csimpl; [done|].
  destruct (f x); csimpl; by rewrite IH.
Qed.

Lemma final_registry (ty : entity_type) (rows : list row) (st : state) :
  for_each process_row rows initial_state = Ok st →
  names (registry_of ty st) = first_seen (omap (row_name ty) rows)
  ∧ reg_wf ty (registry_of ty st).
Proof.
  intros [Hn Hwf]%(for_each_registry ty). split.
  - rewrite Hn. destruct ty; simpl; by rewrite foldl_add_seen_nil, omap_id_fmap.
  - apply Hwf. destruct ty; apply reg_wf_nil.
Qed.

Lemma NoDup_numbered_ids (ty : entity_type) (l : list string) :
  NoDup (entityId <$> imap (numbered ty) l).
Proof.
  apply NoDup_alt. intros i j x.
  rewrite !list_lookup_fmap, !list_lookup_imap.
  destruct (l !! i), (l !! j); simpl; try done.
  intros [= <-] [= H]. unfold numbered in H. simpl in H.
  apply (inj (String.append _)), (inj (String.append _)), (inj pretty) in H. lia.
Qed.

Lemma numbered_ids_disjoint (l l' : list string) (x : string) :
  x ∈ entityId <$> imap (numbered Company) l →
  x ∉ entityId <$> imap (numbered Person) l'.
Proof.
  intros (e & -> & (i & n & -> & _)%elem_of_lookup_imap)%list_elem_of_fmap.
  intros (e' & H & (j & n' & -> & _)%elem_of_lookup_imap)%list_elem_of_fmap.
  discriminate H.
Qed.

(** ** The relationships along the rows *)

Lemma ids_skeleton (reg : registry) : ids reg = (λ p, entityId p.2) <$> skeleton reg.
Proof.
  unfold ids, skeleton. rewrite <- list_fmap_compose. by apply list_fmap_ext.
Qed.

Lemma ids_reg_store (n : string) (e e' : entity (gset string)) (reg : registry) :
  reg_lookup n reg = Some e → bare e' = bare e → ids (reg_store n e' reg) = ids reg.
Proof. intros Hl Hb. by rewrite !ids_skeleton, (skeleton_reg_store _ _ _ _ Hl Hb). Qed.

Lemma ids_get_or_create (ty : entity_type) (n : string) (reg : registry) :
  ids reg ⊆ ids (get_or_create ty n reg).1.
Proof.
  rewrite !ids_skeleton, get_or_create_skeleton.
  destruct (decide (n ∈ names reg)); [done|].
  rewrite fmap_app. intros x Hx. apply elem_of_app. by left.
Qed.

Lemma id_get_or_create (ty : entity_type) (n : string) (reg : registry) :
  entityId (get_or_create ty n reg).2 ∈ ids (get_or_create ty n reg).1.
Proof.
  pose proof (reg_lookup_Some _ _ _ (get_or_create_lookup ty n reg)) as Hin.
  unfold ids. apply list_elem_of_fmap. by eexists (_, _).
Qed.

Lemma bare_entityId {V W : Type} (e : entity V) (e' : entity W) :
  bare e = bare e' → entityId e = entityId e'.
Proof. by intros [= ? _]. Qed.

Lemma elem_of_add_relationship (person comp : entity (gset string))
    (role : option string) (rels : list relationship)
    (keys : gset (string * string * string)) (rel : relationship) :
  rel ∈ (add_relationship person comp role (rels, keys)).1 →
  rel ∈ rels
  ∨ rel = Relationship (entityId person) (entityId comp) (stored_role role) None.
Proof.
  unfold add_relationship. simpl. destruct (decide _); simpl; [by left|].
  rewrite elem_of_app, list_elem_of_singleton. tauto.
Qed.

(** The relationships a row adds come from its person and its company, whose
    entities are in the registries. *)
Lemma process_row_relationships (st st' : state) (r : row) :
  process_row st r = Ok st' →
  ids (companies st) ⊆ ids (companies st')
  ∧ ids (persons st) ⊆ ids (persons st')
  ∧ ∀ rel, rel ∈ relationships st' →
      rel ∈ relationships st
      ∨ ∃ pname extracted phone,
          is_Some (row_company r)
          ∧ row_person r = Some (pname, extracted, phone)
          ∧ role rel = stored_role extracted
          ∧ sourceEntityId rel ∈ ids (persons st')
          ∧ targetEntityId rel ∈ ids (companies st').
Proof.
  intros H%process_row_Ok.
  destruct (row_company r) as [cname|]; [|by subst st'; split_and!; auto].
  simpl in H. destruct H as (comp' & Hloop & Hc & Hp).
  apply bare_for_each_add_field in Hloop.
  assert (ids (companies st') = ids (get_or_create Company cname (companies st)).1)
    as Hcids.
  { rewrite Hc. eapply ids_reg_store; [apply get_or_create_lookup|done]. }
  split; [rewrite Hcids; apply ids_get_or_create|].
  destruct (row_person r) as [[[pname extracted] phone]|].
  - destruct Hp as [Hp Hrel].
    assert (ids (persons st') = ids (get_or_create Person pname (persons st)).1)
      as Hpids.
    { rewrite Hp. eapply ids_reg_store;
        [apply get_or_create_lookup|apply bare_add_phone]. }
    split; [rewrite Hpids; apply ids_get_or_create|].
    intros rel Hin.
    replace (relationships st') with (relationships st', relation_keys st').1 in Hin
      by done.
    rewrite Hrel in Hin. apply elem_of_add_relationship in Hin as [Hin| ->];
      [by left|right].
    exists pname, extracted, phone. simpl. split_and!; [done|done|done| |].
    + rewrite Hpids, (bare_entityId _ _ (bare_add_phone _ _)).
      apply id_get_or_create.
    + rewrite Hcids, (bare_entityId _ _ Hloop). apply id_get_or_create.
  - destruct Hp as (-> & -> & _). split; [done|]. by left.
Qed.

Lemma for_each_relationships (rows : list row) (st st' : state) :
  for_each process_row rows st = Ok st' →
  ids (companies st) ⊆ ids (companies st')
  ∧ ids (persons st) ⊆ ids (persons st')
  ∧ ∀ rel, rel ∈ relationships st' →
      rel ∈ relationships st
      ∨ ∃ r pname extracted phone,
          r ∈ rows
          ∧ is_Some (row_company r)
          ∧ row_person r = Some (pname, extracted, phone)
          ∧ role rel = stored_role extracted
          ∧ sourceEntityId rel ∈ ids (persons st')
          ∧ targetEntityId rel ∈ ids (companies st').
Proof.
  revert st. induction rows as [|r rows IH]; intros st; simpl.
  - intros [= <-]. split_and!; auto.
  - destruct (process_row st r) as [st1|] eqn:Hr; [|done]. simpl.
    intros H. destruct (IH _ H) as (IHc & IHp & IHrel).
    destruct (process_row_relationships _ _ _ Hr) as (Hc & Hp & Hrel).
    split_and!; [by etrans|by etrans|].
    intros rel Hin. destruct (IHrel rel Hin) as [Hin1|Hnew].
    + destruct (Hrel rel Hin1) as [?|(pname & ex & ph & ? & ? & ? & ? & ?)];
        [by left|right].
      exists r, pname, ex, ph. split_and!; [by left|done|done|done|auto|auto].
    + right. destruct Hnew as (r' & pname & ex & ph & ? & Hrest).
      exists r', pname, ex, ph. split; [by right|done].
Qed.

Lemma reg_wf_elem (ty : entity_type) (reg : registry) (k : string)
    (e : entity (gset string)) :
  reg_wf ty reg → (k, e) ∈ reg → type e = ty ∧ canonicalName e = k.
Proof.
  unfold reg_wf. intros Hwf Hin.
  assert ((k, bare e) ∈ skeleton reg) as Hs.
  { unfold skeleton. apply list_elem_of_fmap. by exists (k, e). }
  rewrite Hwf in Hs. apply elem_of_lookup_imap in Hs as (i & n & [= -> _ Hty Hn _] & _).
  done.
Qed.

Lemma elem_of_ids_finalized (ty : entity_type) (reg : registry) (x : string) :
  reg_wf ty reg → x ∈ ids reg →
  ∃ e, e ∈ finalize_all reg ∧ type e = ty ∧ entityId e = x.
Proof.
  intros Hwf ([k e] & -> & Hin)%list_elem_of_fmap.
  exists (finalize e). split_and!; [|by apply (reg_wf_elem ty reg k)|done].
  unfold finalize_all. apply list_elem_of_fmap. by exists (k, e).
Qed.

Lemma lower_nonempty (s : string) : Str.lower s = "" → s = "".
Proof. by destruct s. Qed.

(** ** The same row twice *)

Lemma add_field_any (f : field) (c c1 c' : entity (gset string)) :
  add_field c f = Ok c1 → ∃ c1', add_field c' f = Ok c1'.
Proof.
  destruct f as [k [v|]|vs]; simpl; [| |done].
  - destruct (String.eqb k _); simpl; [by eexists|].
    destruct (negb _); by eexists.
  - destruct (String.eqb k _); simpl; [by eexists|done].
Qed.

Lemma for_each_add_field_any (r : row) (c c1 c' : entity (gset string)) :
  for_each add_field r c = Ok c1 → ∃ c1', for_each add_field r c' = Ok c1'.
Proof.
  revert c c'. induction r as [|f r IH]; intros c c'; cbn [for_each].
  - by eexists.
  - destruct (add_field c f) as [c2|] eqn:Hf; [|done].
    destruct (add_field_any _ _ _ c' Hf) as [c2' ->]. apply IH.
Qed.

Lemma key_in_add_relationship (person comp : entity (gset string))
    (role : option string) (rels : list relationship * gset (string * string * string)) :
  (entityId person, entityId comp, role_or_empty role)
    ∈ (add_relationship person comp role rels).2.
Proof. unfold add_relationship. destruct (decide _); simpl; set_solver. Qed.

Lemma get_or_create_known (ty : entity_type) (n : string) (reg : registry)
    (e : entity (gset string)) :
  reg_lookup n reg = Some e → get_or_create ty n reg = (reg, e).
Proof. unfold get_or_create. by intros ->. Qed.

(** A row read a second time, right after the first, adds no relationship
    (and no entity). *)
Lemma same_row_twice (st st1 : state) (r : row) :
  process_row st r = Ok st1 →
  ∃ st2, process_row st1 r = Ok st2
    ∧ relationships st2 = relationships st1
    ∧ names (companies st2) = names (companies st1)
    ∧ names (persons st2) = names (persons st1).
Proof.
  intros H. pose proof (process_row_Ok _ _ _ H) as Hinv.
  unfold process_row in *. unfold row_company in Hinv.
  destruct (row_get r "Organisation Name") as [s|]; [|done]. clear H. simpl in *.
  destruct (Str.truthy (Str.strip s)); simpl in *; [|by exists st1].
  destruct Hinv as (comp' & Hloop & Hc & Hp).
  rewrite (get_or_create_known Company _ _ comp').
  2:{ rewrite Hc, reg_lookup_store, decide_True by done.
      by rewrite get_or_create_lookup. }
  destruct (for_each_add_field_any r _ _ comp' Hloop) as [comp2 Hloop2].
  rewrite Hloop2. simpl. apply bare_for_each_add_field in Hloop2.
  destruct (row_person r) as [[[pname role] phone]|].
  - destruct Hp as [Hp Hrel].
    rewrite (get_or_create_known Person _ _
               (add_phone phone (get_or_create Person pname (persons st)).2)).
    2:{ rewrite Hp, reg_lookup_store, decide_True by done.
        by rewrite get_or_create_lookup. }
    unfold add_relationship at 1. cbn [snd fst].
    rewrite decide_True.
    + eexists. split; [done|]. simpl. by rewrite !names_reg_store.
    + rewrite (bare_entityId _ _ (bare_add_phone _ _)),
        (bare_entityId _ _ Hloop2).
      replace (relation_keys st1) with (relationships st1, relation_keys st1).2
        by done.
      rewrite Hrel. apply key_in_add_relationship.
  - eexists. split; [done|]. simpl. by rewrite names_reg_store.
Qed.

(** ** Rows without an organisation name *)

Lemma row_get_absent (r : row) (key : string) :
  (∀ v, Field key v ∉ r) → row_get r key = Some "".
Proof.
  induction r as [|[k v|vs] r IH]; intros Habs; simpl; [done| |].
  - rewrite eqb_decide. case_bool_decide as Hk.
    + subst k. exfalso. apply (Habs v). by left.
    + apply IH. intros v' Hin. apply (Habs v'). by right.
  - apply IH. intros v' Hin. apply (Habs v'). by right.
Qed.

(** On a line so short that the cell of the organisation name is missing,
    [csv.DictReader] stores [None], which has no [strip]. *)
Lemma missing_organisation_cell_raises (st : state) (r : row) :
  row_get r "Organisation Name" = None → process_row st r = Raise AttributeError.
Proof. unfold process_row. by intros ->. Qed.

(** A row without the column of the organisation name, or whose organisation
    name is blank once trimmed, leaves the state of the pipeline as it is, and
    the result of a file is the same without the row. *)
Theorem blank_organisation_row_skipped (r : row) :
  organisation_absent_or_blank r →
  (∀ st, process_row st r = Ok st)
  ∧ (∀ (fs : file_system) (p1 p2 : string) (pre post : list row),
       fs p1 = Ok (pre ++ r :: post) → fs p2 = Ok (pre ++ post) →
       parse_mas_fid fs p1 = parse_mas_fid fs p2).
Proof.
  intros Hr.
  assert (∀ st, process_row st r = Ok st) as Hskip.
  { intros st. unfold process_row. destruct Hr as [Habs|(s & -> & Hs)].
    - by rewrite (row_get_absent _ _ Habs).
    - simpl. by rewrite Hs. }
  split; [done|].
  intros fs p1 p2 pre post H1 H2. unfold parse_mas_fid, parse_rows.
  rewrite H1, H2. simpl. rewrite !for_each_app.
  destruct (for_each process_row pre initial_state) as [st|]; [|done].
  simpl. by rewrite Hskip.
Qed.

Lemma blank_organisation_row_skipped_witness :
  process_row initial_state
    [Field "Organisation Name" (Some "   "); Field "Phone Number" (Some "Ann (CEO) -1")]
  = Ok initial_state.
Proof.
  apply (proj1 (blank_organisation_row_skipped
    [Field "Organisation Name" (Some "   "); Field "Phone Number" (Some "Ann (CEO) -1")]
    (or_intror (ex_intro _ "   " (conj eq_refl eq_refl))))).
Defined.

(** C7: the row of a line that ends before the column of the organisation
    name has [None] in that column; it is not skipped: it raises
    [AttributeError], and the file that has a result without the line has
    none with it. *)
Theorem missing_organisation_cell_aborts :
  row_get short_line "Organisation Name" = None
  ∧ (∀ st, process_row st short_line = Raise AttributeError)
  ∧ parse_mas_fid (λ _, Ok [full_line; short_line]) sample_path
    = Raise AttributeError
  ∧ snd <$> parse_mas_fid (λ _, Ok [full_line]) sample_path
    = Ok [Relationship "PERSON_1" "COMPANY_1" (Some "ceo") None].
Proof.
  split_and!; [done|by intros st; apply missing_organisation_cell_raises
              |by vm_compute..].
Qed.

(** ** The report year *)

(** C8: the year of a file name is the value of its first four consecutive
    digits, and [None] when it has none; and two paths to the same rows give
    the same entities and relationships, the report year alone being that of
    the path. *)
Theorem report_year_from_filename_only :
  (∀ filename,
     extract_year filename = None ↔
     ∀ pre post y, filename = pre +:+ post → ¬ year_prefix post y)
  ∧ (∀ filename y,
       extract_year filename = Some y ↔
       ∃ pre post, filename = pre +:+ post ∧ year_prefix post y
         ∧ ∀ pre' post' y', filename = pre' +:+ post' →
             String.length pre' < String.length pre → ¬ year_prefix post' y')
  ∧ (∀ (fs : file_system) (p1 p2 : string),
       fs p1 = fs p2 →
       (λ o, (entities o, out_relationships o)) <$> build_output fs p1
       = (λ o, (entities o, out_relationships o)) <$> build_output fs p2)
  ∧ (∀ (fs : file_system) (p : string) (o : output),
       build_output fs p = Ok o →
       reportYear o = extract_year p
       ∧ parse_mas_fid fs p = Ok (entities o, out_relationships o)).
Proof.
  split_and!.
  - intros filename. rewrite extract_year_first_year. apply first_year_None.
  - intros filename y. rewrite extract_year_first_year. apply first_year_Some.
  - intros fs p1 p2 Heq. unfold build_output, parse_mas_fid. rewrite Heq.
    destruct (fs p2) as [rows|]; [|done]. simpl.
    by destruct (parse_rows rows) as [[ents rels]|].
  - intros fs p o. unfold build_output.
    destruct (parse_mas_fid fs p) as [[ents rels]|]; [|done].
    by intros [= <-].
Qed.

(** ** The attributes of the companies *)

Lemma value_set_add_attribute (k v key : string) (e : entity (gset string)) :
  value_set (attributes (add_attribute k v e)) key =
    value_set (attributes e) key ∪ (if decide (k = key) then {[v]} else ∅).
Proof.
  unfold value_set. simpl. destruct (decide (k = key)) as [->|Hne].
  - by rewrite lookup_insert_eq.
  - rewrite lookup_insert_ne by done. by rewrite (right_id_L ∅ (∪)).
Qed.

Lemma attrs_wf_add_attribute (k v : string) (e : entity (gset string)) :
  k ≠ "Organisation Name" → attrs_wf (attributes e) →
  attrs_wf (attributes (add_attribute k v e)).
Proof.
  intros Hk [Hne Horg]. split; simpl.
  - intros key w. destruct (decide (k = key)) as [->|Hkey].
    + rewrite lookup_insert_eq. intros [= <-]. set_solver.
    + rewrite lookup_insert_ne by done. apply Hne.
  - by rewrite lookup_insert_ne.
Qed.

Lemma add_field_attributes (comp comp' : entity (gset string)) (f : field) :
  add_field comp f = Ok comp' →
  (∀ key, key ≠ "Organisation Name" →
     value_set (attributes comp') key =
       value_set (attributes comp) key ∪ row_values key [f])
  ∧ (attrs_wf (attributes comp) → attrs_wf (attributes comp')).
Proof.
  destruct f as [k [v|]|vs]; simpl; [| |done].
  - rewrite eqb_decide. case_bool_decide as Hk; simpl.
    + intros [= <-]. split; [|done]. intros key Hkey.
      rewrite decide_False by (intros [? _]; congruence). set_solver.
    + destruct (Str.truthy (Str.strip v)) eqn:Ht; simpl; intros [= <-].
      * apply truthy_true in Ht. split; [|by apply attrs_wf_add_attribute].
        intros key _. rewrite value_set_add_attribute.
        destruct (decide (k = key)) as [->|Hne].
        -- rewrite decide_True by done. set_solver.
        -- rewrite decide_False by (intros [? _]; congruence). set_solver.
      * apply truthy_false in Ht. split; [|done]. intros key _.
        rewrite decide_False by (intros [_ ?]; congruence). set_solver.
  - rewrite eqb_decide. case_bool_decide; simpl; [|done].
    intros [= <-]. split; [|done]. intros key _. set_solver.
Qed.

Lemma row_values_cons (key : string) (f : field) (r : row) :
  row_values key (f :: r) = row_values key [f] ∪ row_values key r.
Proof. destruct f as [k [v|]|vs]; simpl; set_solver. Qed.

Lemma for_each_add_field_attributes (r : row) (comp comp' : entity (gset string)) :
  for_each add_field r comp = Ok comp' →
  (∀ key, key ≠ "Organisation Name" →
     value_set (attributes comp') key =
       value_set (attributes comp) key ∪ row_values key r)
  ∧ (attrs_wf (attributes comp) → attrs_wf (attributes comp')).
Proof.
  revert comp. induction r as [|f r IH]; intros comp.
  - simpl. intros [= <-]. split; [|done]. intros key _. set_solver.
  - cbn [for_each]. destruct (add_field comp f) as [c1|] eqn:Hf; [|done].
    intros H. change (for_each add_field r c1 = Ok comp') in H.
    destruct (IH _ H) as [IH1 IH2].
    destruct (add_field_attributes _ _ _ Hf) as [H1 H2].
    split; [|auto]. intros key Hkey.
    rewrite (IH1 key Hkey), (H1 key Hkey), (row_values_cons key f r).
    by rewrite (assoc_L (∪)).
Qed.

Lemma attrs_wf_empty : attrs_wf ∅.
Proof. split; [|done]. intros key v. by rewrite lookup_empty. Qed.

Lemma process_row_attributes (st st' : state) (r : row) :
  process_row st r = Ok st' →
  (∀ name key, key ≠ "Organisation Name" →
     value_set (attrs_of (companies st') name) key =
       value_set (attrs_of (companies st) name) key
       ∪ (if decide (row_company r = Some name) then row_values key r else ∅))
  ∧ ((∀ name, attrs_wf (attrs_of (companies st) name)) →
     ∀ name, attrs_wf (attrs_of (companies st') name)).
Proof.
  intros H%process_row_Ok.
  destruct (row_company r) as [cname|].
  2:{ subst st'. split; [|done]. intros name key _.
      rewrite decide_False by done. set_solver. }
  simpl in H. destruct H as (comp' & Hloop & Hc & _).
  apply for_each_add_field_attributes in Hloop as [Hval Hwf].
  rewrite get_or_create_attributes in Hval, Hwf.
  fold (attrs_of (companies st) cname) in Hval, Hwf.
  assert (∀ name, attrs_of (companies st') name =
            if decide (name = cname) then attributes comp'
            else attrs_of (companies st) name) as Hattrs.
  { intros name. unfold attrs_of. rewrite Hc, reg_lookup_store.
    destruct (decide (name = cname)) as [->|Hne].
    - by rewrite get_or_create_lookup.
    - by rewrite get_or_create_lookup_ne. }
  split.
  - intros name key Hkey. rewrite Hattrs.
    destruct (decide (name = cname)) as [->|Hne].
    + rewrite decide_True by done. by apply Hval.
    + rewrite decide_False by congruence. set_solver.
  - intros Hall name. rewrite Hattrs. destruct (decide (name = cname)); auto.
Qed.

Lemma for_each_attributes (rows : list row) (st st' : state) :
  for_each process_row rows st = Ok st' →
  (∀ name key, key ≠ "Organisation Name" →
     value_set (attrs_of (companies st') name) key =
       value_set (attrs_of (companies st) name) key ∪ column_values name key rows)
  ∧ ((∀ name, attrs_wf (attrs_of (companies st) name)) →
     ∀ name, attrs_wf (attrs_of (companies st') name)).
Proof.
  revert st. induction rows as [|r rows IH]; intros st.
  - simpl. intros [= <-]. split; [|done]. intros name key _. set_solver.
  - cbn [for_each]. destruct (process_row st r) as [st1|] eqn:Hr; [|done]. simpl.
    intros H. destruct (IH _ H) as [IH1 IH2].
    destruct (process_row_attributes _ _ _ Hr) as [H1 H2].
    split; [|auto]. intros name key Hkey.
    rewrite (IH1 name key Hkey), (H1 name key Hkey). set_solver.
Qed.

(** ** [finalize] *)

Lemma finalize_value_singleton (x : string) : finalize_value {[x]} = Scalar x.
Proof.
  unfold finalize_value. rewrite decide_True by apply size_singleton.
  by rewrite elements_singleton.
Qed.

Lemma finalize_value_many (v : gset string) :
  size v ≠ 1 →
  ∃ l, finalize_value v = Sequence l
    ∧ Sorted String.le l ∧ NoDup l ∧ ∀ x, x ∈ l ↔ x ∈ v.
Proof.
  intros Hsz. unfold finalize_value. rewrite decide_False by done.
  exists (sorted v). unfold sorted. split_and!; [done| | |].
  - apply (Sorted_merge_sort String.le).
  - rewrite merge_sort_Permutation. apply NoDup_elements.
  - intros x. by rewrite merge_sort_Permutation, elem_of_elements.
Qed.



Section Pipeline.

Variable fs : file_system.
Variable file_path : string.
Variable rows : list row.
Hypothesis Hfile : fs file_path = Ok rows.

(** C3: the entities are the companies and then the persons, one for each
    distinct name of its type in the order of the first sightings, and the
    identifier of the [i]-th of them (from 1) is [COMPANY_i] or [PERSON_i]. *)
Theorem entity_identifiers (ents : list (entity attr_value))
    (rels : list relationship) :
  parse_mas_fid fs file_path = Ok (ents, rels) →
  let cnames := first_seen (omap row_company rows) in
  let pnames := first_seen (omap row_person_name rows) in
  bare <$> ents =
    imap (λ i n, Entity ("COMPANY_" +:+ pretty (i + 1)) Company n [n] ∅) cnames
    ++ imap (λ i n, Entity ("PERSON_" +:+ pretty (i + 1)) Person n [n] ∅) pnames
  ∧ NoDup cnames ∧ NoDup pnames
  ∧ (∀ n, n ∈ cnames ↔ ∃ r, r ∈ rows ∧ row_company r = Some n)
  ∧ (∀ n, n ∈ pnames ↔ ∃ r, r ∈ rows ∧ row_person_name r = Some n)
  ∧ NoDup (entityId <$> ents).
Proof.
  intros (st & Hst & -> & _)%(parse_mas_fid_Ok _ _ _ _ _ Hfile). simpl.
  destruct (final_registry Company _ _ Hst) as [Hcn Hcwf].
  destruct (final_registry Person _ _ Hst) as [Hpn Hpwf]. simpl in *.
  assert (bare <$> (finalize_all (companies st)
                    ++ finalize_all (persons st))
          = imap (numbered Company) (first_seen (omap row_company rows))
            ++ imap (numbered Person) (first_seen (omap row_person_name rows)))
    as Hbare.
  { rewrite fmap_app, (bare_finalized Company), (bare_finalized Person) by done.
    by rewrite Hcn, Hpn. }
  split_and!.
  - exact Hbare.
  - apply NoDup_first_seen.
  - apply NoDup_first_seen.
  - intros n. by rewrite elem_of_first_seen, list_elem_of_omap.
  - intros n. by rewrite elem_of_first_seen, list_elem_of_omap.
  - replace (entityId <$> _) with
      (entityId <$> (bare <$> (finalize_all (companies st)
                               ++ finalize_all (persons st)))).
    2:{ rewrite <- list_fmap_compose. by apply list_fmap_ext. }
    rewrite Hbare, fmap_app. apply NoDup_app. split_and!.
    + apply NoDup_numbered_ids.
    + apply numbered_ids_disjoint.
    + apply NoDup_numbered_ids.
Qed.

(** C10: a relationship of the result has for source the identifier of a
    person of the result, and for target that of a company of the result. *)
Theorem relationships_reference_entities (ents : list (entity attr_value))
    (rels : list relationship) (rel : relationship) :
  parse_mas_fid fs file_path = Ok (ents, rels) →
  rel ∈ rels →
  (∃ p, p ∈ ents ∧ type p = Person ∧ entityId p = sourceEntityId rel)
  ∧ (∃ c, c ∈ ents ∧ type c = Company ∧ entityId c = targetEntityId rel).
Proof.
  intros (st & Hst & -> & ->)%(parse_mas_fid_Ok _ _ _ _ _ Hfile) Hin.
  destruct (final_registry Company _ _ Hst) as [_ Hcwf].
  destruct (final_registry Person _ _ Hst) as [_ Hpwf]. simpl in *.
  destruct (for_each_relationships _ _ _ Hst) as (_ & _ & Hrel).
  destruct (Hrel rel Hin) as [Hnil|(r & pn & ex & ph & _ & _ & _ & _ & Hs & Ht)].
  { by apply elem_of_nil in Hnil. }
  split.
  - destruct (elem_of_ids_finalized Person _ _ Hpwf Hs) as (p & ? & ? & ?).
    exists p. split_and!; [|done|done]. apply elem_of_app. by right.
  - destruct (elem_of_ids_finalized Company _ _ Hcwf Ht) as (c & ? & ? & ?).
    exists c. split_and!; [|done|done]. apply elem_of_app. by left.
Qed.


End Pipeline.

(** ** A file of four lines *)

Lemma entity_identifiers_witness :
  bare <$> sample_entities =
    [ Entity "COMPANY_1" Company "ACME Pte Ltd" ["ACME Pte Ltd"] ∅;
      Entity "COMPANY_2" Company "Beta Bank" ["Beta Bank"] ∅;
      Entity "PERSON_1" Person "Oleg Leonov" ["Oleg Leonov"] ∅;
      Entity "PERSON_2" Person "Tan Wee" ["Tan Wee"] ∅ ].
Proof.
  assert (parse_mas_fid sample_fs sample_path
          = Ok (sample_entities, sample_relationships)) as H by (by vm_compute).
  exact (proj1 (entity_identifiers sample_fs sample_path sample_rows eq_refl
                  sample_entities sample_relationships H)).
Defined.


Lemma relationships_reference_entities_witness :
  (∃ p, p ∈ sample_entities ∧ type p = Person ∧ entityId p = "PERSON_2")
  ∧ (∃ c, c ∈ sample_entities ∧ type c = Company ∧ entityId c = "COMPANY_1").
Proof.
  apply (relationships_reference_entities sample_fs sample_path sample_rows eq_refl
           sample_entities sample_relationships
           (Relationship "PERSON_2" "COMPANY_1" (Some "head of compliance") None)).
  - by vm_compute.
  - vm_compute. apply list_elem_of_further, list_elem_of_here.
Defined.

Lemma report_year_from_filename_only_witness :
  (λ o, (entities o, out_relationships o)) <$> build_output sample_fs sample_path
  = (λ o, (entities o, out_relationships o)) <$> build_output sample_fs "fid.tsv"
  ∧ (reportYear (Output (Some 2025%Z) sample_entities sample_relationships)
     = extract_year sample_path
     ∧ parse_mas_fid sample_fs sample_path
       = Ok (sample_entities, sample_relationships)).
Proof.
  split.
  - apply (proj1 (proj2 (proj2 report_year_from_filename_only))). reflexivity.
  - apply (proj2 (proj2 (proj2 report_year_from_filename_only)) sample_fs sample_path
             (Output (Some 2025%Z) sample_entities sample_relationships)).
    by vm_compute.
Defined.

(** ** Two roles that differ by their case *)

(** C1: on two rows of one company and one person whose roles differ by
    their case only, the result has two relationships of the same source,
    target and role. *)
Theorem relationships_same_triple_twice :
  snd <$> parse_mas_fid (λ _, Ok case_rows) sample_path =
    Ok [ Relationship "PERSON_1" "COMPANY_1" (Some "ceo") None;
         Relationship "PERSON_1" "COMPANY_1" (Some "ceo") None ].
Proof. by vm_compute. Qed.

(** * Further properties *)

(** ** [str.strip] *)

Lemma lstrip_idem (s : string) : Str.lstrip (Str.lstrip s) = Str.lstrip s.
Proof.
  induction s as [|c s IH]; [done|]. simpl.
  destruct (Char.isspace c) eqn:Hc; [done|]. simpl. by rewrite Hc.
Qed.

Lemma rstrip_idem (s : string) : Str.rstrip (Str.rstrip s) = Str.rstrip s.
Proof.
  induction s as [|c s IH]; [done|]. simpl.
  destruct (Str.rstrip s) as [|a r] eqn:Hr.
  - destruct (Char.isspace c) eqn:Hc; [done|]. simpl. by rewrite Hc.
  - change (Str.rstrip (String c (String a r)))
      with (match Str.rstrip (String a r) with
            | "" => if Char.isspace c then "" else String c ""
            | String x y => String c (String x y)
            end).
    by rewrite IH.
Qed.

Lemma lstrip_fixed (c : ascii) (s : string) :
  Char.isspace c = false → Str.lstrip (String c s) = String c s.
Proof. intros H. simpl. by rewrite H. Qed.

Lemma strip_idem (s : string) : Str.strip (Str.strip s) = Str.strip s.
Proof.
  unfold Str.strip. destruct (Str.rstrip (Str.lstrip s)) as [|c r] eqn:Hr; [done|].
  destruct (rstrip_head _ _ _ Hr) as [s0 Hs0].
  rewrite (lstrip_fixed c r) by (by eapply lstrip_head).
  by rewrite <- Hr, rstrip_idem.
Qed.

Lemma rstrip_spaces (s : string) :
  Str.rstrip s = "" ↔ Str.forallb Char.isspace s = true.
Proof.
  induction s as [|c s IH]; [done|]. simpl.
  destruct (Str.rstrip s) as [|a r].
  - destruct (Char.isspace c); simpl; [by rewrite <- IH|done].
  - split; [done|]. intros [_ H]%andb_prop. by apply IH in H.
Qed.

Lemma rstrip_app_spaces (a b : string) :
  Str.forallb Char.isspace b = true → Str.rstrip (a +:+ b) = Str.rstrip a.
Proof.
  intros Hb. induction a as [|c a IH].
  - rewrite app_nil. by apply rstrip_spaces.
  - rewrite app_cons. simpl. by rewrite IH.
Qed.

Lemma rstrip_app_keep (a b : string) :
  Str.rstrip b ≠ "" → Str.rstrip (a +:+ b) = a +:+ Str.rstrip b.
Proof.
  intros Hb. induction a as [|c a IH]; [done|].
  rewrite !app_cons. simpl. rewrite IH.
  destruct (a +:+ Str.rstrip b) eqn:Hab; [|done].
  destruct a; [|done]. by rewrite app_nil in Hab.
Qed.

Lemma length_rstrip (s : string) : String.length (Str.rstrip s) ≤ String.length s.
Proof.
  induction s as [|c s IH]; [done|]. simpl.
  destruct (Str.rstrip s); [destruct (Char.isspace c)|]; simpl in *; lia.
Qed.

(** A non-empty end of a right-stripped string is not white space. *)
Lemma rstrip_suffix (a b : string) :
  Str.rstrip (a +:+ b) = a +:+ b → b ≠ "" → Str.rstrip b ≠ "".
Proof.
  intros Hab Hb Hr. apply rstrip_spaces in Hr.
  rewrite rstrip_app_spaces in Hab by done.
  pose proof (length_rstrip a) as Hlen. rewrite Hab, length_app_s in Hlen.
  destruct b; [done|]. simpl in Hlen. lia.
Qed.

Lemma lstrip_nonspace (s : string) :
  Str.forallb Char.isspace s = false → Str.forallb Char.isspace (Str.lstrip s) = false.
Proof.
  induction s as [|c s IH]; [done|]. simpl.
  destruct (Char.isspace c) eqn:Hc; simpl; [done|]. by rewrite Hc.
Qed.

Lemma strip_empty (s : string) :
  Str.strip s = "" ↔ Str.forallb Char.isspace s = true.
Proof.
  unfold Str.strip. rewrite rstrip_spaces. split.
  - intros H. destruct (Str.forallb Char.isspace s) eqn:Hs; [done|].
    apply lstrip_nonspace in Hs. congruence.
  - intros H. by rewrite lstrip_spaces.
Qed.

Lemma strip_rstrip_fixed (s : string) : Str.strip s = s → Str.rstrip s = s.
Proof.
  intros H. transitivity (Str.rstrip (Str.strip s)); [by rewrite H|].
  unfold Str.strip. rewrite rstrip_idem. exact H.
Qed.

(** ** [_split_name_role] *)

Lemma split1_None (sep : ascii) (s : string) :
  Str.forallb (Char.not_char sep) s = true → Str.split1 sep s = None.
Proof.
  induction s as [|c s IH]; [done|]. simpl. unfold Char.not_char at 1.
  destruct (Char.is_char sep c); simpl; [done|]. intros H. by rewrite IH.
Qed.

Lemma split1_app (sep : ascii) (a b : string) :
  Str.forallb (Char.not_char sep) a = true →
  Str.split1 sep (a +:+ String sep b) = Some (a, b).
Proof.
  induction a as [|c a IH].
  - intros _. rewrite app_nil. simpl. by rewrite is_char_refl.
  - rewrite app_cons. simpl. unfold Char.not_char at 1.
    destruct (Char.is_char sep c); simpl; [done|]. intros H. by rewrite IH.
Qed.

(** What [split1] returns is the text before and after the first separator. *)
Lemma split1_Some (sep : ascii) (s a b : string) :
  Str.split1 sep s = Some (a, b) →
  s = a +:+ String sep b ∧ Str.forallb (Char.not_char sep) a = true.
Proof.
  revert a. induction s as [|c s IH]; intros a; [done|]. simpl.
  destruct (Char.is_char sep c) eqn:Hc.
  - intros [= <- <-]. apply is_char_eq in Hc as ->. done.
  - destruct (Str.split1 sep s) as [[a' b']|]; [|done].
    intros [= <- <-]. destruct (IH a' eq_refl) as [-> Ha].
    rewrite app_cons. simpl. unfold Char.not_char at 1. by rewrite Hc.
Qed.

(** X1: The text is split at its first hyphen; without a hyphen, at its first
    comma; without either, it is the name.  An empty role is [None], a role
    of white space is the empty string. *)
Theorem split_name_role_cases :
  (∀ text,
     Str.forallb (Char.not_char "-"%char) text = true →
     Str.forallb (Char.not_char ","%char) text = true →
     _split_name_role text = (Str.strip text, None))
  ∧ (∀ a b,
       Str.forallb (Char.not_char "-"%char) a = true →
       _split_name_role (a +:+ String "-" b) =
         (Str.strip a, if Str.truthy b then Some (Str.strip b) else None))
  ∧ (∀ a b,
       Str.forallb (Char.not_char "-"%char) (a +:+ String "," b) = true →
       Str.forallb (Char.not_char ","%char) a = true →
       _split_name_role (a +:+ String "," b) =
         (Str.strip a, if Str.truthy b then Some (Str.strip b) else None)).
Proof.
  unfold _split_name_role. split_and!.
  - intros text H1 H2. by rewrite split1_None, split1_None.
  - intros a b Ha. by rewrite split1_app.
  - intros a b Hab Ha. by rewrite split1_None, split1_app.
Qed.

Lemma split_name_role_cases_witness :
  _split_name_role "Tan, Wee-Head, Compliance" = ("Tan, Wee", Some "Head, Compliance")
  ∧ _split_name_role "Tan Wee,  " = ("Tan Wee", Some "")
  ∧ _split_name_role " Tan Wee " = ("Tan Wee", None).
Proof.
  split_and!.
  - apply (proj1 (proj2 split_name_role_cases) "Tan, Wee" "Head, Compliance").
    reflexivity.
  - apply (proj2 (proj2 split_name_role_cases) "Tan Wee" "  "); reflexivity.
  - apply (proj1 split_name_role_cases " Tan Wee "); reflexivity.
Defined.

(** The role split from a stripped text is never the empty string. *)
Lemma split_name_role_stripped (text : string) :
  Str.strip text = text →
  (_split_name_role text).2 ≠ Some ""
  ∧ Str.strip (_split_name_role text).1 = (_split_name_role text).1
  ∧ (∀ r, (_split_name_role text).2 = Some r → Str.strip r = r).
Proof.
  intros Hst%strip_rstrip_fixed.
  assert (∀ sep a b, text = a +:+ String sep b → Str.truthy b = true →
            Str.strip b ≠ "") as Hrole.
  { intros sep a b -> Hb%truthy_true Hs. apply strip_empty, rstrip_spaces in Hs.
    replace (a +:+ String sep b) with ((a +:+ String sep "") +:+ b) in Hst
      by (by rewrite app_assoc_s).
    by apply rstrip_suffix in Hst. }
  unfold _split_name_role.
  destruct (Str.split1 "-" text) as [[a b]|] eqn:H1.
  - apply split1_Some in H1 as [Heq _]. simpl.
    destruct (Str.truthy b) eqn:Hb.
    + split_and!; [|apply strip_idem|by intros r [= <-]; apply strip_idem].
      intros [= H]. by apply (Hrole _ _ _ Heq Hb).
    + split_and!; [done|apply strip_idem|done].
  - destruct (Str.split1 "," text) as [[a b]|] eqn:H2.
    + apply split1_Some in H2 as [Heq _]. simpl.
      destruct (Str.truthy b) eqn:Hb.
      * split_and!; [|apply strip_idem|by intros r [= <-]; apply strip_idem].
        intros [= H]. by apply (Hrole _ _ _ Heq Hb).
      * split_and!; [done|apply strip_idem|done].
    + simpl. split_and!; [done|apply strip_idem|done].
Qed.

(** ** [parse_person_field] and white space *)

(** X2: White space around the field does not change what is read from it. *)
Theorem parse_person_field_strip (value : string) :
  parse_person_field (Str.strip value) = parse_person_field value.
Proof.
  unfold parse_person_field. rewrite strip_idem.
  destruct (Str.strip value) as [|c s] eqn:Hs.
  - by destruct (negb (Str.truthy value)).
  - destruct value; [done|]. done.
Qed.

Lemma parse_person_field_components (value name : string)
    (role phone : option string) :
  parse_person_field value = Some (name, role, phone) →
  Str.strip name = name
  ∧ (∀ r, role = Some r → Str.strip r = r)
  ∧ (∀ p, phone = Some p → Str.strip p = p ∧ p ≠ "").
Proof.
  assert (∀ s p, or_None (Str.strip s) = Some p → Str.strip p = p ∧ p ≠ "") as Hph.
  { intros s p. unfold or_None. destruct (Str.truthy (Str.strip s)) eqn:Ht; [|done].
    intros [= <-]. split; [apply strip_idem|by apply truthy_true]. }
  unfold parse_person_field. destruct (negb (Str.truthy value)); [done|].
  destruct (Re.match_ pattern_A (Str.strip value)) as [m|].
  - intros [= <- <- <-]. split_and!; [apply strip_idem| |apply Hph].
    intros r [= <-]. apply strip_idem.
  - destruct (Re.match_ pattern_B (Str.strip value)) as [m|]; [|done].
    destruct (Str.existsb _ _); [|done].
    destruct (_split_name_role _) as [n ro] eqn:Hsp.
    intros [= <- <- <-].
    destruct (split_name_role_stripped (Str.strip (Re.group m "inside")))
      as (_ & Hn & Hr); [apply strip_idem|].
    rewrite Hsp in Hn, Hr. simpl in *. split_and!; [done|done|apply Hph].
Qed.

(** X3: The name, the role and the phone that are returned have no white space
    around them, and the phone is never the empty string. *)
Theorem parse_person_field_trimmed (value name : string) (role phone : option string) :
  parse_person_field value = Some (name, role, phone) →
  Str.strip name = name
  ∧ (∀ r, role = Some r → Str.strip r = r)
  ∧ (∀ p, phone = Some p → Str.strip p = p ∧ p ≠ "").
Proof. apply parse_person_field_components. Qed.

Lemma parse_person_field_trimmed_witness :
  Str.strip "Oleg Leonov" = "Oleg Leonov"
  ∧ (∀ r, Some "CEO-designate" = Some r → Str.strip r = r)
  ∧ (∀ p, Some "6221 9876" = Some p → Str.strip p = p ∧ p ≠ "").
Proof.
  apply (parse_person_field_trimmed "  Oleg Leonov  ( CEO-designate ) - 6221 9876  ").
  by vm_compute.
Defined.

(** X4: When the first pattern does not match, the role that is read is never
    the empty string: it is [None] or has a character. *)
Theorem parse_person_field_role_B (value name : string) (role phone : option string) :
  Re.match_ pattern_A (Str.strip value) = None →
  parse_person_field value = Some (name, role, phone) →
  role ≠ Some "".
Proof.
  intros HA. unfold parse_person_field. rewrite HA.
  destruct (negb (Str.truthy value)); [done|].
  destruct (Re.match_ pattern_B (Str.strip value)) as [m|]; [|done].
  destruct (Str.existsb _ _); [|done].
  destruct (_split_name_role _) as [n ro] eqn:Hsp.
  intros [= <- <- <-].
  destruct (split_name_role_stripped (Str.strip (Re.group m "inside")))
    as (Hne & _); [apply strip_idem|].
  by rewrite Hsp in Hne.
Qed.

Lemma parse_person_field_role_B_witness : (None : option string) ≠ Some "".
Proof.
  apply (parse_person_field_role_B "+65 6221 9876 (Tan Wee- )" "Tan Wee" None
           (Some "+65 6221 9876")); by vm_compute.
Defined.

(** ** Greedy items before a pattern that matches *)

Lemma span_app (p : ascii → bool) (s : string) :
  take_while p s +:+ drop_while p s = s.
Proof.
  induction s as [|c s IH]; [done|]. simpl. destruct (p c); [|done].
  rewrite app_cons. by f_equal.
Qed.

Lemma forallb_take_while (p : ascii → bool) (s : string) :
  Str.forallb p (take_while p s) = true.
Proof.
  induction s as [|c s IH]; [done|]. simpl. destruct (p c) eqn:Hc; [|done].
  simpl. by rewrite Hc.
Qed.

Lemma drop_while_head (p : ascii → bool) (s : string) (a : ascii) (t : string) :
  drop_while p s = String a t → p a = false.
Proof.
  induction s as [|c s IH]; [done|]. simpl. destruct (p c) eqn:Hc; [done|].
  by intros [= <- _].
Qed.

Lemma run_Star_span (c : ascii → bool) (p : Re.pattern) (s : string) (pos : nat)
    (m r : list Re.mark) :
  Re.run p (drop_while c s) (String.length (take_while c s) + pos) m = Some r →
  Re.run (Re.Star c :: p) s pos m = Some r.
Proof.
  intros H. rewrite <- (span_app c s) at 1.
  apply run_Star_all; [apply forallb_take_while| |done].
  intros a t. apply drop_while_head.
Qed.

Lemma run_Opt_hyphen (c : ascii → bool) (p : Re.pattern) (a : ascii) (s : string)
    (pos : nat) (m r : list Re.mark) :
  c a = true → Re.run p s (S pos) m = Some r →
  Re.run (Re.Opt c :: p) (String a s) pos m = Some r.
Proof. intros Ha Hr. cbn [Re.run]. by rewrite Ha, Hr. Qed.

Lemma run_Opt_skip (c : ascii → bool) (p : Re.pattern) (s : string)
    (pos : nat) (m : list Re.mark) :
  (∀ a t, s = String a t → c a = false) →
  Re.run (Re.Opt c :: p) s pos m = Re.run p s pos m.
Proof.
  intros Hs. destruct s as [|a t]; [done|]. cbn [Re.run].
  by rewrite (Hs a t eq_refl).
Qed.

(** The end of the first pattern matches any text, and its group is the
    phone line of the text. *)
Lemma run_phone_tail (rest : string) (pos : nat) :
  ∃ skipped after,
    rest = skipped +:+ phone_line rest +:+ after
    ∧ ∀ m, Re.run phone_tail rest pos m =
        Some ([ Re.End "phone"
                  (String.length (phone_line rest) + (String.length skipped + pos));
                Re.Start "phone" (String.length skipped + pos) ] ++ m).
Proof.
  set (sp1 := take_while Char.isspace rest).
  set (r1 := drop_while Char.isspace rest).
  set (r2 := drop_hyphen r1).
  set (sp2 := take_while Char.isspace r2).
  set (r3 := drop_while Char.isspace r2).
  set (line := take_while (Char.not_char "010") r3).
  set (r4 := drop_while (Char.not_char "010") r3).
  assert (∃ hy, r1 = hy +:+ r2
            ∧ ∀ p q m r,
                Re.run p r2 (String.length hy + q) m = Some r →
                Re.run (Re.Opt (Char.is_char "-") :: p) r1 q m = Some r)
    as (hy & Hhy & Hopt).
  { unfold r2, drop_hyphen. destruct r1 as [|a t] eqn:Hr1.
    - exists "". split; [done|]. intros p q m r Hr. by rewrite run_Opt_skip.
    - destruct (Char.is_char "-" a) eqn:Ha.
      + exists (String a ""). split; [done|]. intros p q m r Hr.
        by apply run_Opt_hyphen.
      + exists "". split; [done|]. intros p q m r Hr.
        rewrite run_Opt_skip; [done|]. by intros a' t' [= <- <-]. }
  exists (sp1 +:+ hy +:+ sp2), r4. split.
  - change (phone_line rest) with line.
    rewrite !app_assoc_s. unfold line, r4. rewrite span_app.
    unfold sp2, r3. rewrite span_app. rewrite <- Hhy.
    unfold sp1, r1. by rewrite span_app.
  - intros m. unfold phone_tail.
    apply run_Star_span. fold sp1 r1.
    apply Hopt.
    apply run_Star_span. fold sp2 r3.
    rewrite run_GroupOpen.
    apply run_Star_span. fold line r4.
    rewrite run_GroupClose. cbn [Re.run]. change (phone_line rest) with line.
    rewrite !length_app_s. simpl.
    by replace (String.length sp1 + (String.length hy + String.length sp2) + pos)
      with (String.length sp2 + (String.length hy + (String.length sp1 + pos)))
      by lia.
Qed.

Ltac str_norm := repeat (rewrite ?app_cons, ?app_assoc_s, ?app_nil).

Lemma substring_at (A B C S : string) (n k : nat) :
  S = A +:+ B +:+ C → n = String.length A → k = String.length B →
  String.substring n k S = B.
Proof. intros -> -> ->. by rewrite substring_skip, substring_prefix. Qed.

(** ** The parenthesis of both patterns *)

Section ParenTail.

Variables g1 g2 : string.
Variable p : Re.pattern.
Variables inside rest : string.
Variable new : list Re.mark.
Variable base : nat.
Hypothesis Hne : inside ≠ "".
Hypothesis Hinside : Str.forallb (Char.not_char ")"%char) inside = true.
Hypothesis Hcont :
  ∀ m, Re.run p rest (S (S (base + String.length inside))) m = Some (new ++ m).

Lemma paren_group_run (m : list Re.mark) :
  Re.run (drop 2 (paren_tail g1 g2 p)) (parenthesized inside rest) base m =
    Some (new ++ Re.End g2 (S base + String.length inside)
                 :: Re.Start g2 (S base) :: m).
Proof.
  unfold parenthesized. cbn [drop paren_tail app].
  rewrite run_Chr, is_char_refl, run_GroupOpen.
  destruct inside as [|i0 inside'] eqn:Hi; [done|].
  simpl in Hinside. apply andb_prop in Hinside as [Hi0 Hin'].
  rewrite app_cons, run_Plus, Hi0.
  apply run_Star_all; [done| |].
  - intros a t [= <- _]. unfold Char.not_char. by rewrite is_char_refl.
  - rewrite run_GroupClose, run_Chr, is_char_refl.
    replace (S (String.length inside' + S (S base)))
      with (S (S (base + String.length (String i0 inside')))) by (simpl; lia).
    rewrite Hcont.
    by replace (String.length inside' + S (S base))
      with (S base + String.length (String i0 inside')) by (simpl; lia).
Qed.

Lemma paren_tail_at (y : string) (pos : nat) (m : list Re.mark) :
  Str.forallb Char.isspace y = true → String.length y + pos = base →
  Re.run (paren_tail g1 g2 p) (y +:+ parenthesized inside rest) pos m =
    Some (new ++ Re.End g2 (S base + String.length inside)
                 :: Re.Start g2 (S base) :: Re.End g1 pos :: m).
Proof.
  intros Hy Hpos. unfold paren_tail at 1. cbn [app]. rewrite run_GroupClose.
  apply run_Star_all; [done| |].
  - intros a t [= <- _]. reflexivity.
  - rewrite Hpos. apply paren_group_run.
Qed.

Lemma paren_tail_inv (x : string) (pos : nat) (m r : list Re.mark) :
  Str.forallb no_paren x = true → String.length x + pos = base →
  Re.run (paren_tail g1 g2 p) (x +:+ parenthesized inside rest) pos m = Some r →
  Str.forallb Char.isspace x = true
  ∧ r = new ++ Re.End g2 (S base + String.length inside)
            :: Re.Start g2 (S base) :: Re.End g1 pos :: m.
Proof.
  intros Hx Hpos. unfold paren_tail at 1. cbn [app]. rewrite run_GroupClose.
  intros (y & t & Heq & Hy & Hr)%run_Star_inv.
  destruct t as [|a t]; [by rewrite run_Chr_nil in Hr|].
  pose proof Hr as Hr'. rewrite run_Chr in Hr'.
  destruct (Char.is_char "(" a) eqn:Ha; [|done]. clear Hr'.
  apply is_char_eq in Ha as ->.
  unfold parenthesized in Heq. symmetry in Heq.
  apply app_first_char in Heq as [-> ->].
  - split; [done|].
    change (Re.Chr _ :: _) with (drop 2 (paren_tail g1 g2 p)) in Hr.
    fold (parenthesized inside rest) in Hr.
    rewrite Hpos, paren_group_run in Hr. by injection Hr as <-.
  - eapply forallb_impl; [apply space_not_open|done].
  - eapply forallb_impl; [|exact Hx]. unfold no_paren. by intros a [? _]%andb_prop.
Qed.

(** The lazy star before the parenthesis stops where only white space is
    left before it. *)
Lemma paren_lazy (x : string) (pos : nat) (m : list Re.mark) :
  Str.forallb no_paren x = true → String.length x + pos = base →
  ∃ x1 x2,
    x = x1 +:+ x2 ∧ Str.forallb Char.isspace x2 = true
    ∧ Re.run (Re.LazyStar no_paren :: paren_tail g1 g2 p)
        (x +:+ parenthesized inside rest) pos m =
      Some (new ++ Re.End g2 (S base + String.length inside)
                   :: Re.Start g2 (S base)
                   :: Re.End g1 (String.length x1 + pos) :: m).
Proof.
  revert pos. induction x as [|b x IH]; intros pos Hx Hpos; rewrite run_LazyStar.
  - exists "", "". split_and!; [done..|].
    by rewrite (paren_tail_at "" pos m eq_refl Hpos).
  - destruct (Re.run (paren_tail g1 g2 p) _ pos m) as [r|] eqn:Hr.
    + apply paren_tail_inv in Hr as [Hsp ->]; [|done..].
      by exists "", (String b x).
    + simpl in Hx. apply andb_prop in Hx as [Hb Hx].
      rewrite app_cons, Hb.
      destruct (IH (S pos) Hx) as (x1 & x2 & -> & Hx2 & ->);
        [simpl in Hpos; lia|].
      exists (String b x1), x2. split_and!; [done..|].
      cbn [String.length]. by rewrite Nat.add_succ_r.
Qed.

End ParenTail.

Lemma alpha_not_space (c : ascii) : Char.isalpha c = true → Char.isspace c = false.
Proof. destruct c as [[] [] [] [] [] [] [] []]; vm_compute; congruence. Qed.

Lemma letter_not_space (c : ascii) :
  Char.is_ascii_letter c = true → Char.isspace c = false.
Proof. destruct c as [[] [] [] [] [] [] [] []]; vm_compute; congruence. Qed.

Lemma existsb_lstrip_keep (p : ascii → bool) (s : string) :
  (∀ c, p c = true → Char.isspace c = false) →
  Str.existsb p s = true → Str.existsb p (Str.lstrip s) = true.
Proof.
  intros Hp. induction s as [|c s IH]; [done|]. simpl.
  destruct (Char.isspace c) eqn:Hc; [|done].
  destruct (p c) eqn:Hpc; [|done]. apply Hp in Hpc. congruence.
Qed.

Lemma existsb_rstrip_keep (p : ascii → bool) (s : string) :
  (∀ c, p c = true → Char.isspace c = false) →
  Str.existsb p s = true → Str.existsb p (Str.rstrip s) = true.
Proof.
  intros Hp. induction s as [|c s IH]; [done|]. simpl.
  destruct (p c) eqn:Hpc; simpl.
  - intros _. apply Hp in Hpc as Hc.
    destruct (Str.rstrip s); simpl; by rewrite ?Hc; simpl; rewrite Hpc.
  - intros H. specialize (IH H).
    destruct (Str.rstrip s); [done|]. simpl in *. by rewrite IH, orb_true_r.
Qed.

Lemma existsb_strip_keep (p : ascii → bool) (s : string) :
  (∀ c, p c = true → Char.isspace c = false) →
  Str.existsb p s = true → Str.existsb p (Str.strip s) = true.
Proof.
  intros Hp H. unfold Str.strip.
  by apply existsb_rstrip_keep, existsb_lstrip_keep.
Qed.

(** The strip of a text that starts with a character that is not white
    space, whatever white space follows the text. *)
Lemma strip_head_spaces (c0 : ascii) (x1 x2 : string) :
  Char.isspace c0 = false → Str.forallb Char.isspace x2 = true →
  Str.strip (String c0 x1) = Str.strip (String c0 (x1 +:+ x2)).
Proof.
  intros Hc0 Hx2. unfold Str.strip. rewrite !lstrip_fixed by done.
  by rewrite <- app_cons, rstrip_app_spaces.
Qed.

Lemma strip_head_nonempty (c0 : ascii) (x : string) :
  Char.isspace c0 = false → Str.truthy (Str.strip (String c0 x)) = true.
Proof.
  intros Hc0. apply truthy_true. intros H%strip_empty. simpl in H.
  by rewrite Hc0 in H.
Qed.

(** ** The second pattern, in general *)

(** X6: On a phone that starts with [+] or a digit and has no parenthesis,
    followed by a parenthesis around a text with a letter, the phone is the
    text before the parenthesis, and the name and the role are split from the
    text inside it; what follows the parenthesis is ignored. *)
Theorem parse_person_field_pattern_B (c0 : ascii) (pre inside rest : string) :
  Char.is_char "+"%char c0 || Char.isdigit c0 = true →
  Str.forallb no_paren pre = true →
  inside ≠ "" →
  Str.forallb (Char.not_char ")"%char) inside = true →
  Str.existsb Char.isalpha inside = true →
  parse_person_field (String c0 (pre +:+ parenthesized inside rest)) =
    Some ((_split_name_role (Str.strip inside)).1,
          (_split_name_role (Str.strip inside)).2,
          Some (Str.strip (String c0 pre))).
Proof.
  intros Hc0 Hpre Hne Hin Halpha.
  pose proof (plus_or_digit_not_space _ Hc0) as Hsp.
  unfold parse_person_field. cbn [Str.truthy negb].
  pose proof (strip_phone_parenthesized c0 pre "" inside rest Hsp) as Hstrip.
  rewrite !app_nil in Hstrip. rewrite Hstrip. clear Hstrip.
  unfold pattern_A at 1.
  rewrite run_group_chr_reject by (by apply plus_or_digit_not_letter).
  unfold Re.match_, pattern_B. rewrite run_GroupOpen, run_Chr, Hc0.
  change (Re.LazyStar _ :: _)
    with (Re.LazyStar no_paren :: paren_tail "phone" "inside" []).
  destruct (paren_lazy "phone" "inside" [] inside (Str.rstrip rest) []
              (String.length pre + 1) Hne Hin (λ m, eq_refl) pre 1
              [Re.Start "phone" 0] Hpre eq_refl)
    as (x1 & x2 & Hx & Hx2 & ->).
  cbn [app].
  assert (Re.group (Re.Match (String c0 (pre +:+ parenthesized inside (Str.rstrip rest)))
             [Re.End "inside" (S (String.length pre + 1) + String.length inside);
              Re.Start "inside" (S (String.length pre + 1));
              Re.End "phone" (String.length x1 + 1); Re.Start "phone" 0]) "inside"
          = inside) as ->.
  { unfold Re.group. cbn [Re.marks Re.subject Re.start_of Re.end_of].
    change (String.eqb "inside" "inside") with true.
    change (String.eqb "inside" "phone") with false. cbn iota.
    apply (substring_at (String c0 (pre +:+ "(")) inside (String ")" (Str.rstrip rest))).
    - unfold parenthesized. by str_norm.
    - simpl. rewrite length_app_s. simpl. lia.
    - lia. }
  assert (Re.group (Re.Match (String c0 (pre +:+ parenthesized inside (Str.rstrip rest)))
             [Re.End "inside" (S (String.length pre + 1) + String.length inside);
              Re.Start "inside" (S (String.length pre + 1));
              Re.End "phone" (String.length x1 + 1); Re.Start "phone" 0]) "phone"
          = String c0 x1) as ->.
  { unfold Re.group. cbn [Re.marks Re.subject Re.start_of Re.end_of].
    change (String.eqb "phone" "inside") with false.
    change (String.eqb "phone" "phone") with true. cbn iota.
    apply (substring_at "" (String c0 x1)
             (x2 +:+ parenthesized inside (Str.rstrip rest))).
    - rewrite Hx. by str_norm.
    - done.
    - simpl. lia. }
  rewrite (strip_head_spaces c0 x1 x2 Hsp Hx2), <- Hx.
  rewrite (existsb_strip_keep _ _ alpha_not_space Halpha).
  unfold or_None. rewrite strip_head_nonempty by done.
  by destruct (_split_name_role (Str.strip inside)).
Qed.

Lemma parse_person_field_pattern_B_witness :
  parse_person_field "+65 6221 9876  (Tan Wee, Head-Compliance) or 6000" =
    Some ((_split_name_role "Tan Wee, Head-Compliance").1,
          (_split_name_role "Tan Wee, Head-Compliance").2,
          Some "+65 6221 9876").
Proof.
  apply (parse_person_field_pattern_B "+" "65 6221 9876  " "Tan Wee, Head-Compliance"
           " or 6000"); by vm_compute.
Defined.

(** ** The first pattern, in general *)

(** X5: On a name that starts with a letter and has no parenthesis, followed by
    a parenthesis, the name is the text before the parenthesis, the role the
    text inside it, and the phone the line after it, without the white space
    and the hyphen it may start with. *)
Theorem parse_person_field_pattern_A (c0 : ascii) (pre role_text rest : string) :
  Char.is_ascii_letter c0 = true →
  Str.forallb no_paren pre = true →
  role_text ≠ "" →
  Str.forallb (Char.not_char ")"%char) role_text = true →
  parse_person_field (String c0 (pre +:+ parenthesized role_text rest)) =
    Some (Str.strip (String c0 pre),
          Some (Str.strip role_text),
          or_None (Str.strip (phone_line (Str.rstrip rest)))).
Proof.
  intros Hc0 Hpre Hne Hin.
  pose proof (letter_not_space _ Hc0) as Hsp.
  unfold parse_person_field. cbn [Str.truthy negb].
  pose proof (strip_phone_parenthesized c0 pre "" role_text rest Hsp) as Hstrip.
  rewrite !app_nil in Hstrip. rewrite Hstrip. clear Hstrip.
  set (rest' := Str.rstrip rest).
  destruct (run_phone_tail rest'
              (S (S (String.length pre + 1 + String.length role_text))))
    as (skipped & after & Hrest & Hrun).
  set (line := phone_line rest') in *.
  unfold Re.match_, pattern_A. rewrite run_GroupOpen, run_Chr, Hc0.
  change (Re.LazyStar _ :: _)
    with (Re.LazyStar no_paren :: paren_tail "name" "role" phone_tail).
  destruct (paren_lazy "name" "role" phone_tail role_text rest' _
              (String.length pre + 1) Hne Hin Hrun pre 1
              [Re.Start "name" 0] Hpre eq_refl)
    as (x1 & x2 & Hx & Hx2 & ->).
  cbn [app].
  set (S0 := String c0 (pre +:+ parenthesized role_text rest')).
  set (Q := S (S (String.length pre + 1 + String.length role_text))).
  set (ms := [Re.End "phone" (String.length line + (String.length skipped + Q));
              Re.Start "phone" (String.length skipped + Q);
              Re.End "role" (S (String.length pre + 1) + String.length role_text);
              Re.Start "role" (S (String.length pre + 1));
              Re.End "name" (String.length x1 + 1); Re.Start "name" 0]).
  assert (Re.group (Re.Match S0 ms) "name" = String c0 x1) as ->.
  { unfold Re.group, ms. cbn [Re.marks Re.subject Re.start_of Re.end_of].
    change (String.eqb "name" "phone") with false.
    change (String.eqb "name" "role") with false.
    change (String.eqb "name" "name") with true. cbn iota.
    apply (substring_at "" (String c0 x1)
             (x2 +:+ parenthesized role_text rest')).
    - unfold S0. rewrite Hx. by str_norm.
    - done.
    - simpl. lia. }
  assert (Re.group (Re.Match S0 ms) "role" = role_text) as ->.
  { unfold Re.group, ms. cbn [Re.marks Re.subject Re.start_of Re.end_of].
    change (String.eqb "role" "phone") with false.
    change (String.eqb "role" "role") with true. cbn iota.
    apply (substring_at (String c0 (pre +:+ "(")) role_text (String ")" rest')).
    - unfold S0, parenthesized. by str_norm.
    - simpl. rewrite length_app_s. simpl. lia.
    - lia. }
  assert (Re.group (Re.Match S0 ms) "phone" = line) as ->.
  { unfold Re.group, ms. cbn [Re.marks Re.subject Re.start_of Re.end_of].
    change (String.eqb "phone" "phone") with true. cbn iota.
    apply (substring_at
             (String c0 (pre +:+ "(" +:+ role_text +:+ ")" +:+ skipped)) line after).
    - unfold S0, parenthesized. rewrite Hrest at 1. by str_norm.
    - unfold Q. simpl. rewrite !length_app_s. simpl. lia.
    - lia. }
  by rewrite (strip_head_spaces c0 x1 x2 Hsp Hx2), <- Hx.
Qed.

Lemma parse_person_field_pattern_A_witness :
  parse_person_field "Ann Lim  (Director (Asia) - 6000 0000 ext 1" =
    Some ("Ann Lim", Some "Director (Asia", Some "6000 0000 ext 1").
Proof.
  apply (parse_person_field_pattern_A "A" "nn Lim  " "Director (Asia"
           " - 6000 0000 ext 1"); by vm_compute.
Defined.

(** ** The year of a path *)

Lemma digit_value_range (c : ascii) :
  Char.isdigit c = true → (0 ≤ digit_value c ≤ 9)%Z.
Proof.
  unfold Char.isdigit, Char.between, digit_value.
  intros [H1 H2]%andb_prop. apply N.leb_le in H1, H2. lia.
Qed.

Lemma digits4_range (s : string) (y : Z) :
  digits4 s = Some y → (0 ≤ y ≤ 9999)%Z.
Proof.
  intros (a & b & c & d & rest & _ & Ha & Hb & Hc & Hd & ->)%digits4_spec.
  apply digit_value_range in Ha, Hb, Hc, Hd. lia.
Qed.

Lemma first_year_range (s : string) (y : Z) :
  first_year s = Some y → (0 ≤ y ≤ 9999)%Z.
Proof.
  induction s as [|c s IH]; [done|]. cbn [first_year].
  destruct (digits4 (String c s)) as [y'|] eqn:Hd; [|done].
  intros [= <-]. by eapply digits4_range.
Qed.

(** X7: The year of a file name is a number of at most four digits. *)
Theorem extract_year_range (filename : string) (y : Z) :
  extract_year filename = Some y → (0 ≤ y ≤ 9999)%Z.
Proof. rewrite extract_year_first_year. apply first_year_range. Qed.

Lemma extract_year_range_witness : (0 ≤ 7 ≤ 9999)%Z.
Proof. apply (extract_year_range "fid_0007.tsv"). by vm_compute. Defined.

Lemma digits4_app (s post : string) :
  4 ≤ String.length s → digits4 (s +:+ post) = digits4 s.
Proof.
  destruct s as [|a [|b [|c [|d s]]]]; simpl; try lia. done.
Qed.

Lemma digits4_length (s : string) (y : Z) : digits4 s = Some y → 4 ≤ String.length s.
Proof. destruct s as [|a [|b [|c [|d s]]]]; simpl; try done. lia. Qed.

Lemma first_year_length (s : string) (y : Z) :
  first_year s = Some y → 4 ≤ String.length s.
Proof.
  revert y. induction s as [|c s IH]; intros y; [done|]. cbn [first_year].
  destruct (digits4 (String c s)) as [y'|] eqn:Hd.
  - intros _. by eapply digits4_length.
  - intros H%IH. simpl. lia.
Qed.

Lemma first_year_app (pre post : string) (y : Z) :
  first_year pre = Some y → first_year (pre +:+ post) = Some y.
Proof.
  induction pre as [|c pre IH]; [done|]. intros H.
  pose proof (first_year_length _ _ H) as Hlen.
  assert (first_year (String c pre +:+ post) =
            match digits4 (String c pre +:+ post) with
            | Some y' => Some y'
            | None => first_year (pre +:+ post)
            end) as -> by reflexivity.
  rewrite digits4_app by done. cbn [first_year] in H.
  destruct (digits4 (String c pre)); [done|]. by apply IH.
Qed.

Lemma first_year_skip (pre post : string) :
  Str.existsb Char.isdigit pre = false →
  first_year (pre +:+ post) = first_year post.
Proof.
  induction pre as [|c pre IH]; [done|]. cbn [Str.existsb].
  intros [Hc Hpre]%orb_false_elim. rewrite app_cons. cbn [first_year].
  assert (digits4 (String c (pre +:+ post)) = None) as ->.
  { unfold digits4. destruct (pre +:+ post) as [|b [|c' [|d ?]]]; try done.
    by rewrite Hc. }
  by apply IH.
Qed.

(** X8: A year in the start of a path is the year of the path, whatever
    follows; and a start without a digit does not count. *)
Theorem extract_year_app :
  (∀ pre post y,
     extract_year pre = Some y → extract_year (pre +:+ post) = Some y)
  ∧ (∀ pre post,
       Str.existsb Char.isdigit pre = false →
       extract_year (pre +:+ post) = extract_year post).
Proof.
  split.
  - intros pre post y. rewrite !extract_year_first_year. apply first_year_app.
  - intros pre post. rewrite !extract_year_first_year. apply first_year_skip.
Qed.

Lemma extract_year_app_witness :
  extract_year ("/data/2019/" +:+ "MAS_FID_2025-06-19.xls") = Some 2019%Z
  ∧ extract_year ("/data/" +:+ "MAS_FID_2025-06-19.xls")
    = extract_year "MAS_FID_2025-06-19.xls".
Proof.
  split.
  - apply (proj1 extract_year_app). by vm_compute.
  - apply (proj2 extract_year_app). by vm_compute.
Defined.

(** ** Which files are parsed *)

Lemma for_each_add_field_result (r : row) (comp : entity (gset string)) :
  if forallb field_ok r
  then ∃ comp', for_each add_field r comp = Ok comp'
  else for_each add_field r comp = Raise AttributeError.
Proof.
  revert comp. induction r as [|f r IH]; intros comp; [by eexists|].
  cbn [forallb for_each]. destruct f as [k [v|]|vs]; simpl.
  - rewrite orb_true_r. simpl.
    destruct (String.eqb k _); simpl; [apply IH|].
    destruct (negb _); apply IH.
  - rewrite orb_false_r. destruct (String.eqb k _); simpl; [apply IH|done].
  - done.
Qed.

Lemma process_row_result (st : state) (r : row) :
  if row_ok r
  then ∃ st', process_row st r = Ok st'
  else process_row st r = Raise AttributeError.
Proof.
  unfold row_ok, process_row.
  destruct (row_get r "Organisation Name") as [s|]; [|done]. simpl.
  destruct (Str.truthy (Str.strip s)); simpl; [|by eexists].
  destruct (get_or_create Company _ _) as [c1 comp].
  pose proof (for_each_add_field_result r comp) as Hloop.
  destruct (forallb field_ok r).
  - destruct Hloop as [comp' ->]. simpl.
    destruct (row_person r) as [[[pname role] phone]|]; [|by eexists].
    destruct (get_or_create _ _ _) as [p1 person].
    destruct (add_relationship _ _ _ _). by eexists.
  - by rewrite Hloop.
Qed.

Lemma for_each_rows_result (rows : list row) (st : state) :
  if forallb row_ok rows
  then ∃ st', for_each process_row rows st = Ok st'
  else for_each process_row rows st = Raise AttributeError.
Proof.
  revert st. induction rows as [|r rows IH]; intros st; [by eexists|].
  cbn [forallb for_each]. pose proof (process_row_result st r) as Hr.
  destruct (row_ok r); simpl.
  - destruct Hr as [st1 ->]. simpl. apply IH.
  - by rewrite Hr.
Qed.

(** X9: A file that is read to its end raises [AttributeError] when one of
    its rows has no cell for the organisation name, or is the row of a
    company with a missing cell or a cell in excess; every other such file
    has an output, with the year of its path. *)
Theorem build_output_result (fs : file_system) (file_path : string)
    (rows : list row) :
  fs file_path = Ok rows →
  if forallb row_ok rows
  then ∃ ents rels,
         parse_mas_fid fs file_path = Ok (ents, rels)
         ∧ build_output fs file_path
           = Ok (Output (extract_year file_path) ents rels)
  else parse_mas_fid fs file_path = Raise AttributeError
       ∧ build_output fs file_path = Raise AttributeError.
Proof.
  unfold build_output, parse_mas_fid, parse_rows. intros ->. simpl.
  pose proof (for_each_rows_result rows initial_state) as Hrows.
  destruct (forallb row_ok rows).
  - destruct Hrows as [st ->]. simpl. by eexists _, _.
  - by rewrite Hrows.
Qed.

Lemma build_output_result_witness :
  (∃ ents rels,
     parse_mas_fid sample_fs sample_path = Ok (ents, rels)
     ∧ build_output sample_fs sample_path
       = Ok (Output (extract_year sample_path) ents rels))
  ∧ parse_mas_fid (λ _, Ok [full_line; short_line]) sample_path
    = Raise AttributeError
  ∧ build_output (λ _, Ok [full_line; short_line]) sample_path
    = Raise AttributeError.
Proof.
  split.
  - exact (build_output_result sample_fs sample_path sample_rows eq_refl).
  - exact (build_output_result (λ _, Ok [full_line; short_line]) sample_path
             [full_line; short_line] eq_refl).
Defined.

(** ** The entities of a registry *)

Lemma elem_of_reg_store (n : string) (e' : entity (gset string)) (reg : registry)
    (k : string) (e : entity (gset string)) :
  (k, e) ∈ reg_store n e' reg → (k, e) ∈ reg ∨ e = e'.
Proof.
  induction reg as [|[k0 e0] reg IH]; simpl; [by left|].
  destruct (String.eqb k0 n).
  - intros [[= -> ->]|Hin]%elem_of_cons; [by right|]. left. by right.
  - intros [[= -> ->]|Hin]%elem_of_cons; [left; by left|].
    destruct (IH Hin); [left; by right|by right].
Qed.

Lemma elem_of_get_or_create (ty : entity_type) (n : string) (reg : registry)
    (k : string) (e : entity (gset string)) :
  (k, e) ∈ (get_or_create ty n reg).1 →
  (k, e) ∈ reg ∨ e = new_entity ty (length reg) n.
Proof.
  unfold get_or_create. destruct (reg_lookup n reg); simpl; [by left|].
  intros [Hin|[= -> ->]%list_elem_of_singleton]%elem_of_app; [by left|by right].
Qed.

Lemma get_or_create_entity (ty : entity_type) (n : string) (reg : registry) :
  (n, (get_or_create ty n reg).2) ∈ reg
  ∨ (get_or_create ty n reg).2 = new_entity ty (length reg) n.
Proof.
  unfold get_or_create. destruct (reg_lookup n reg) eqn:Hl; simpl; [|by right].
  left. by apply reg_lookup_Some.
Qed.

Lemma reg_forall_step (P : entity (gset string) → Prop) (ty : entity_type)
    (n : string) (reg : registry) (e' : entity (gset string)) :
  (∀ i, P (new_entity ty i n)) →
  (P (get_or_create ty n reg).2 → P e') →
  reg_forall P reg →
  reg_forall P (reg_store n e' (get_or_create ty n reg).1).
Proof.
  intros Hnew He' Hreg k e [[Hin| ->]%elem_of_get_or_create| ->]%elem_of_reg_store.
  - by eapply Hreg.
  - apply Hnew.
  - apply He'. destruct (get_or_create_entity ty n reg) as [Hin| ->];
      [by eapply Hreg|apply Hnew].
Qed.

Lemma reg_lookup_elem (reg : registry) (k : string) (e : entity (gset string)) :
  NoDup (names reg) → (k, e) ∈ reg → reg_lookup k reg = Some e.
Proof.
  unfold names. induction reg as [|[k0 e0] reg IH]; [by intros _ ?%elem_of_nil|].
  rewrite fmap_cons. intros [Hk Hnd]%NoDup_cons. simpl. rewrite eqb_decide.
  intros [[= -> ->]|Hin]%elem_of_cons.
  - by rewrite bool_decide_true.
  - rewrite bool_decide_false; [by apply IH|].
    intros ->. apply Hk. apply list_elem_of_fmap. by exists (k, e).
Qed.

(** ** The values of the attributes *)

Lemma values_ok_empty : values_ok ∅.
Proof. intros key v. by rewrite lookup_empty. Qed.

Lemma values_ok_add_attribute (k v : string) (e : entity (gset string)) :
  value_ok v → values_ok (attributes e) →
  values_ok (attributes (add_attribute k v e)).
Proof.
  intros Hv He key w. simpl. destruct (decide (k = key)) as [->|Hne].
  - rewrite lookup_insert_eq. intros [= <-]. split; [set_solver|].
    intros x [Hx| ->%elem_of_singleton]%elem_of_union; [|done].
    destruct (attributes e !! key) as [w|] eqn:Hw; simpl in Hx; [|set_solver].
    by apply (He key w Hw).
  - rewrite lookup_insert_ne by done. apply He.
Qed.

Lemma values_ok_add_field (comp comp' : entity (gset string)) (f : field) :
  add_field comp f = Ok comp' →
  values_ok (attributes comp) → values_ok (attributes comp').
Proof.
  destruct f as [k [v|]|vs]; simpl; [| |done].
  - destruct (String.eqb k _); [by intros [= <-]|]. simpl.
    destruct (Str.truthy (Str.strip v)) eqn:Ht; simpl; intros [= <-]; [|done].
    apply values_ok_add_attribute. split; [by apply truthy_true|apply strip_idem].
  - destruct (String.eqb k _); [by intros [= <-]|done].
Qed.

Lemma values_ok_for_each (r : row) (comp comp' : entity (gset string)) :
  for_each add_field r comp = Ok comp' →
  values_ok (attributes comp) → values_ok (attributes comp').
Proof.
  revert comp. induction r as [|f r IH]; intros comp; cbn [for_each].
  - by intros [= <-].
  - destruct (add_field comp f) as [c1|] eqn:Hf; [|done].
    intros H Hc. change (for_each add_field r c1 = Ok comp') in H.
    eapply IH; [done|]. by eapply values_ok_add_field.
Qed.

Lemma values_ok_add_phone (phone : option string) (e : entity (gset string)) :
  (∀ p, phone = Some p → Str.strip p = p ∧ p ≠ "") →
  values_ok (attributes e) → values_ok (attributes (add_phone phone e)).
Proof.
  intros Hp He. unfold add_phone. destruct phone as [ph|]; [|done].
  destruct (Str.truthy ph); [|done].
  apply values_ok_add_attribute; [|done].
  destruct (Hp ph eq_refl). by split.
Qed.

Lemma process_row_values (st st' : state) (r : row) :
  process_row st r = Ok st' →
  reg_forall (λ e, values_ok (attributes e)) (companies st) →
  reg_forall (λ e, values_ok (attributes e)) (persons st) →
  reg_forall (λ e, values_ok (attributes e)) (companies st')
  ∧ reg_forall (λ e, values_ok (attributes e)) (persons st').
Proof.
  intros H%process_row_Ok Hc Hp.
  destruct (row_company r) as [cname|]; [|by subst st'].
  simpl in H. destruct H as (comp' & Hloop & -> & Hpers). split.
  - apply reg_forall_step; [intros i; apply values_ok_empty| |done].
    apply (values_ok_for_each _ _ _ Hloop).
  - unfold row_person in Hpers.
    destruct (row_get r "Phone Number") as [value|]; [|by destruct Hpers as [-> _]].
    destruct (parse_person_field value) as [[[pname role] phone]|] eqn:Hparse;
      [|by destruct Hpers as [-> _]].
    destruct Hpers as [-> _].
    apply reg_forall_step; [intros i; apply values_ok_empty| |done].
    apply values_ok_add_phone.
    by destruct (parse_person_field_components _ _ _ _ Hparse) as (_ & _ & ?).
Qed.

Lemma for_each_values (rows : list row) (st st' : state) :
  for_each process_row rows st = Ok st' →
  reg_forall (λ e, values_ok (attributes e)) (companies st) →
  reg_forall (λ e, values_ok (attributes e)) (persons st) →
  reg_forall (λ e, values_ok (attributes e)) (companies st')
  ∧ reg_forall (λ e, values_ok (attributes e)) (persons st').
Proof.
  revert st. induction rows as [|r rows IH]; intros st; cbn [for_each].
  - by intros [= <-].
  - destruct (process_row st r) as [st1|] eqn:Hr; [|done].
    intros H Hc Hp. change (for_each process_row rows st1 = Ok st') in H.
    destruct (process_row_values _ _ _ Hr Hc Hp). by eapply IH.
Qed.

Lemma finalize_value_shape (v : gset string) :
  v ≠ ∅ → (∀ x, x ∈ v → value_ok x) →
  match finalize_value v with
  | Scalar s => v = {[s]} ∧ value_ok s
  | Sequence l =>
      2 ≤ length l ∧ Forall value_ok l ∧ Sorted String.le l ∧ NoDup l
      ∧ ∀ x, x ∈ l ↔ x ∈ v
  end.
Proof.
  intros Hne Hok. destruct (decide (size v = 1)) as [H1|H1].
  - apply size_1_elem_of in H1 as [x Hx]. apply leibniz_equiv in Hx. subst v.
    rewrite finalize_value_singleton. split; [done|]. apply Hok. set_solver.
  - destruct (finalize_value_many v H1) as (l & -> & Hs & Hnd & Hel).
    split_and!; [|apply Forall_forall; intros x ?%Hel; auto|done..].
    assert (length l = size v) as ->.
    { unfold size, set_size. simpl. apply Permutation_length, NoDup_Permutation;
        [done|apply NoDup_elements|]. intros x. by rewrite Hel, elem_of_elements. }
    assert (size v ≠ 0) by (by intros ?%size_empty_inv%leibniz_equiv).
    lia.
Qed.

Section Values.

Variable fs : file_system.
Variable file_path : string.
Variable rows : list row.
Hypothesis Hfile : fs file_path = Ok rows.

(** X10: In the result, an attribute is a trimmed string that is not empty, or a
    sorted list without duplicates of at least two such strings. *)
Theorem attribute_values (ents : list (entity attr_value))
    (rels : list relationship) (e : entity attr_value) (key : string)
    (a : attr_value) :
  parse_mas_fid fs file_path = Ok (ents, rels) →
  e ∈ ents → attributes e !! key = Some a →
  match a with
  | Scalar s => value_ok s
  | Sequence l =>
      2 ≤ length l ∧ Forall value_ok l ∧ Sorted String.le l ∧ NoDup l
  end.
Proof.
  intros (st & Hst & -> & _)%(parse_mas_fid_Ok _ _ _ _ _ Hfile) Hin Ha.
  destruct (for_each_values _ _ _ Hst) as [Hc Hp];
    [by intros k e' ?%elem_of_nil..|].
  assert (∃ e0, e = finalize e0 ∧ values_ok (attributes e0)) as (e0 & -> & Hok).
  { unfold finalize_all in Hin.
    apply elem_of_app in Hin as [([k e0] & -> & Hin)%list_elem_of_fmap
                                |([k e0] & -> & Hin)%list_elem_of_fmap];
      exists e0; split; [done|by eapply Hc|done|by eapply Hp]. }
  simpl in Ha. rewrite lookup_fmap in Ha.
  destruct (attributes e0 !! key) as [v|] eqn:Hv; [|done].
  injection Ha as <-. destruct (Hok key v Hv) as [Hne Hval].
  pose proof (finalize_value_shape v Hne Hval) as Hshape.
  destruct (finalize_value v); [by destruct Hshape|].
  by destruct Hshape as (? & ? & ? & ? & _).
Qed.

End Values.

(** ** The attributes of the persons *)

Lemma person_attrs_wf_empty : person_attrs_wf ∅.
Proof. intros key v. by rewrite lookup_empty. Qed.

Lemma add_phone_attributes (phone : option string) (e : entity (gset string)) :
  value_set (attributes (add_phone phone e)) "Phone Number" =
    value_set (attributes e) "Phone Number" ∪ phone_set phone
  ∧ (person_attrs_wf (attributes e) → person_attrs_wf (attributes (add_phone phone e))).
Proof.
  unfold add_phone, phone_set. destruct phone as [ph|].
  2:{ split; [by rewrite (right_id_L ∅ (∪))|done]. }
  destruct (Str.truthy ph).
  2:{ split; [by rewrite (right_id_L ∅ (∪))|done]. }
  split.
  - rewrite value_set_add_attribute. by rewrite decide_True.
  - intros Hwf key v. simpl. destruct (decide ("Phone Number" = key)) as [<-|Hne].
    + rewrite lookup_insert_eq. intros [= <-]. split; [done|set_solver].
    + rewrite lookup_insert_ne by done. apply Hwf.
Qed.

Lemma process_row_person_attributes (st st' : state) (r : row) :
  process_row st r = Ok st' →
  (∀ name,
     value_set (attrs_of (persons st') name) "Phone Number" =
       value_set (attrs_of (persons st) name) "Phone Number"
       ∪ (if decide (row_person_name r = Some name) then row_phones r else ∅))
  ∧ ((∀ name, person_attrs_wf (attrs_of (persons st) name)) →
     ∀ name, person_attrs_wf (attrs_of (persons st') name)).
Proof.
  intros H%process_row_Ok. unfold row_person_name, row_phones.
  destruct (row_company r) as [cname|].
  2:{ subst st'. split; [|done]. intros name.
      rewrite decide_False by done. by rewrite (right_id_L ∅ (∪)). }
  simpl in H. destruct H as (comp' & _ & _ & Hp).
  destruct (row_person r) as [[[pname role] phone]|].
  2:{ destruct Hp as [-> _]. split; [|done]. intros name.
      rewrite decide_False by done. by rewrite (right_id_L ∅ (∪)). }
  destruct Hp as [Hp _].
  destruct (add_phone_attributes phone (get_or_create Person pname (persons st)).2)
    as [Hval Hwf].
  rewrite get_or_create_attributes in Hval, Hwf.
  fold (attrs_of (persons st) pname) in Hval, Hwf.
  assert (∀ name, attrs_of (persons st') name =
            if decide (name = pname)
            then attributes (add_phone phone (get_or_create Person pname (persons st)).2)
            else attrs_of (persons st) name) as Hattrs.
  { intros name. unfold attrs_of. rewrite Hp, reg_lookup_store.
    destruct (decide (name = pname)) as [->|Hne].
    - by rewrite get_or_create_lookup.
    - by rewrite get_or_create_lookup_ne. }
  split.
  - intros name. rewrite Hattrs. destruct (decide (name = pname)) as [->|Hne].
    + by rewrite decide_True.
    + rewrite decide_False by congruence. by rewrite (right_id_L ∅ (∪)).
  - intros Hall name. rewrite Hattrs. destruct (decide (name = pname)); auto.
Qed.

Lemma for_each_person_attributes (rows : list row) (st st' : state) :
  for_each process_row rows st = Ok st' →
  (∀ name,
     value_set (attrs_of (persons st') name) "Phone Number" =
       value_set (attrs_of (persons st) name) "Phone Number"
       ∪ person_phones name rows)
  ∧ ((∀ name, person_attrs_wf (attrs_of (persons st) name)) →
     ∀ name, person_attrs_wf (attrs_of (persons st') name)).
Proof.
  revert st. induction rows as [|r rows IH]; intros st; cbn [for_each].
  - intros [= <-]. split; [|done]. intros name. simpl.
    by rewrite (right_id_L ∅ (∪)).
  - destruct (process_row st r) as [st1|] eqn:Hr; [|done].
    intros H. change (for_each process_row rows st1 = Ok st') in H.
    destruct (IH _ H) as [IH1 IH2].
    destruct (process_row_person_attributes _ _ _ Hr) as [H1 H2].
    split; [|auto]. intros name. rewrite IH1, H1. cbn [person_phones].
    by rewrite (assoc_L (∪)).
Qed.

(** ** The attributes before [finalize], from the rows *)

Lemma final_attributes (ty : entity_type) (rows : list row) (st : state)
    (name : string) (e0 : entity (gset string)) :
  for_each process_row rows initial_state = Ok st →
  reg_lookup name (registry_of ty st) = Some e0 →
  ∀ key, attributes e0 !! key = final_attrs ty name rows key.
Proof.
  intros Hst Hl key. unfold final_attrs, nonempty_opt. destruct ty; simpl in Hl.
  - destruct (for_each_attributes _ _ _ Hst) as [Hval Hwf].
    specialize (Hwf (λ _, attrs_wf_empty) name).
    unfold attrs_of in Hval, Hwf. simpl in Hval. rewrite Hl in Hwf.
    destruct (decide (key = "Organisation Name")) as [->|Hkey]; [apply Hwf|].
    specialize (Hval name key Hkey). rewrite Hl in Hval.
    unfold value_set in Hval. rewrite lookup_empty in Hval. simpl in Hval.
    rewrite (left_id_L ∅ (∪)) in Hval. rewrite <- Hval.
    destruct (attributes e0 !! key) as [v|] eqn:Hv; simpl.
    + rewrite decide_False; [done|]. by apply (proj1 Hwf key).
    + by rewrite decide_True.
  - destruct (for_each_person_attributes _ _ _ Hst) as [Hval Hwf].
    specialize (Hwf (λ _, person_attrs_wf_empty) name). specialize (Hval name).
    unfold attrs_of in Hval, Hwf. simpl in Hval. rewrite Hl in Hval, Hwf.
    unfold value_set in Hval. rewrite lookup_empty in Hval. simpl in Hval.
    rewrite (left_id_L ∅ (∪)) in Hval.
    destruct (decide (key = "Phone Number")) as [->|Hkey].
    + rewrite <- Hval.
      destruct (attributes e0 !! "Phone Number") as [v|] eqn:Hv; simpl.
      * rewrite decide_False; [done|]. by apply (Hwf _ _ Hv).
      * by rewrite decide_True.
    + destruct (attributes e0 !! key) as [v|] eqn:Hv; [|done].
      by destruct (Hwf _ _ Hv).
Qed.

Section Persons.

Variable fs : file_system.
Variable file_path : string.
Variable rows : list row.
Hypothesis Hfile : fs file_path = Ok rows.


End Persons.

(** ** The order of the rows *)

Lemma column_values_perm (name key : string) (rows rows' : list row) :
  rows ≡ₚ rows' → column_values name key rows = column_values name key rows'.
Proof.
  induction 1 as [|r l l' _ IH|r1 r2 l|l1 l2 l3 _ IH1 _ IH2]; simpl.
  - done.
  - by rewrite IH.
  - rewrite !(assoc_L (∪)). f_equal. apply (comm_L (∪)).
  - by rewrite IH1.
Qed.

Lemma person_phones_perm (name : string) (rows rows' : list row) :
  rows ≡ₚ rows' → person_phones name rows = person_phones name rows'.
Proof.
  induction 1 as [|r l l' _ IH|r1 r2 l|l1 l2 l3 _ IH1 _ IH2]; simpl.
  - done.
  - by rewrite IH.
  - rewrite !(assoc_L (∪)). f_equal. apply (comm_L (∪)).
  - by rewrite IH1.
Qed.

Lemma final_attrs_perm (ty : entity_type) (name key : string) (rows rows' : list row) :
  rows ≡ₚ rows' → final_attrs ty name rows key = final_attrs ty name rows' key.
Proof.
  intros Hp. unfold final_attrs.
  by rewrite (column_values_perm _ _ _ _ Hp), (person_phones_perm _ _ _ Hp).
Qed.

Lemma forallb_perm {A : Type} (f : A → bool) (l l' : list A) :
  l ≡ₚ l' → forallb f l = forallb f l'.
Proof.
  induction 1 as [|x l l' _ IH|x y l|l1 l2 l3 _ IH1 _ IH2]; simpl.
  - done.
  - by rewrite IH.
  - by rewrite !andb_assoc, (andb_comm (f y)).
  - by rewrite IH1.
Qed.

Lemma reg_wf_elem_bare (ty : entity_type) (reg : registry) (k : string)
    (e : entity (gset string)) :
  reg_wf ty reg → (k, e) ∈ reg → ∃ i, bare e = numbered ty i k.
Proof.
  unfold reg_wf. intros Hwf Hin.
  assert ((k, bare e) ∈ skeleton reg) as Hs.
  { unfold skeleton. apply list_elem_of_fmap. by exists (k, e). }
  rewrite Hwf in Hs. apply elem_of_lookup_imap in Hs as (i & n & Heq & _).
  pose proof (f_equal fst Heq) as Hk. pose proof (f_equal snd Heq) as Hb.
  simpl in Hk, Hb. subst n. by exists i.
Qed.

(** The entity of a name after the rows in another order. *)
Lemma registry_perm (ty : entity_type) (rows rows' : list row) (st st' : state)
    (k : string) (e0 : entity (gset string)) :
  rows ≡ₚ rows' →
  for_each process_row rows initial_state = Ok st →
  for_each process_row rows' initial_state = Ok st' →
  (k, e0) ∈ registry_of ty st →
  ∃ e0', (k, e0') ∈ registry_of ty st'
    ∧ type e0' = type e0 ∧ canonicalName e0' = canonicalName e0
    ∧ mentions e0' = mentions e0 ∧ attributes e0' = attributes e0.
Proof.
  intros Hp Hst Hst' Hin.
  destruct (final_registry ty _ _ Hst) as [Hn Hwf].
  destruct (final_registry ty _ _ Hst') as [Hn' Hwf'].
  assert (NoDup (names (registry_of ty st))) as Hnd
    by (rewrite Hn; apply NoDup_first_seen).
  pose proof (reg_lookup_elem _ _ _ Hnd Hin) as Hl.
  assert (k ∈ names (registry_of ty st')) as Hk.
  { rewrite Hn', elem_of_first_seen, <- Hp, <- elem_of_first_seen, <- Hn.
    unfold names. apply list_elem_of_fmap. by exists (k, e0). }
  destruct (reg_lookup k (registry_of ty st')) as [e0'|] eqn:Hl'.
  2:{ by apply reg_lookup_None in Hl'. }
  pose proof (reg_lookup_Some _ _ _ Hl') as Hin'.
  exists e0'. split; [done|].
  destruct (reg_wf_elem_bare _ _ _ _ Hwf Hin) as [i Hb].
  destruct (reg_wf_elem_bare _ _ _ _ Hwf' Hin') as [i' Hb'].
  unfold bare, numbered in Hb, Hb'. injection Hb as _ Hty Hcn Hm.
  injection Hb' as _ Hty' Hcn' Hm'.
  split_and!; [congruence..|].
  apply map_eq. intros key.
  rewrite (final_attributes ty rows st k e0 Hst Hl),
    (final_attributes ty rows' st' k e0' Hst' Hl').
  by apply final_attrs_perm.
Qed.

(** X12: The rows in another order give the same entities, with the same
    attributes; only their identifiers may differ. *)
Theorem entities_of_permuted_rows (fs : file_system) (p1 p2 : string)
    (rows rows' : list row) (ents : list (entity attr_value))
    (rels : list relationship) :
  fs p1 = Ok rows → fs p2 = Ok rows' → rows ≡ₚ rows' →
  parse_mas_fid fs p1 = Ok (ents, rels) →
  ∃ ents' rels',
    parse_mas_fid fs p2 = Ok (ents', rels')
    ∧ length ents' = length ents
    ∧ ∀ e, e ∈ ents →
        ∃ e', e' ∈ ents'
          ∧ type e' = type e ∧ canonicalName e' = canonicalName e
          ∧ mentions e' = mentions e ∧ attributes e' = attributes e.
Proof.
  intros H1 H2 Hp (st & Hst & -> & _)%(parse_mas_fid_Ok _ _ _ _ _ H1).
  pose proof (for_each_rows_result rows initial_state) as Hok.
  pose proof (for_each_rows_result rows' initial_state) as Hok'.
  rewrite <- (forallb_perm row_ok _ _ Hp) in Hok'.
  destruct (forallb row_ok rows); [|congruence].
  destruct Hok' as [st' Hst'].
  exists (finalize_all (companies st') ++ finalize_all (persons st')),
    (relationships st').
  split_and!.
  - unfold parse_mas_fid, parse_rows. rewrite H2. simpl. by rewrite Hst'.
  - unfold finalize_all. rewrite !length_app, !length_fmap.
    assert (∀ ty, length (registry_of ty st') = length (registry_of ty st)) as Hlen.
    { intros ty.
      destruct (final_registry ty _ _ Hst) as [Hn _].
      destruct (final_registry ty _ _ Hst') as [Hn' _].
      rewrite <- (length_fmap fst (registry_of ty st')),
        <- (length_fmap fst (registry_of ty st)).
      fold (names (registry_of ty st')) (names (registry_of ty st)).
      rewrite Hn, Hn'. apply Permutation_length, NoDup_Permutation;
        [apply NoDup_first_seen..|].
      intros x. by rewrite !elem_of_first_seen, Hp. }
    pose proof (Hlen Company) as HlC. pose proof (Hlen Person) as HlP.
    simpl in HlC, HlP. by rewrite HlC, HlP.
  - intros e Hin.
    assert (∃ ty k e0, (k, e0) ∈ registry_of ty st ∧ e = finalize e0)
      as (ty & k & e0 & Hin0 & ->).
    { unfold finalize_all in Hin.
      apply elem_of_app in Hin as [([k e0] & -> & Hin)%list_elem_of_fmap
                                  |([k e0] & -> & Hin)%list_elem_of_fmap].
      - by exists Company, k, e0.
      - by exists Person, k, e0. }
    destruct (registry_perm ty _ _ _ _ _ _ Hp Hst Hst' Hin0)
      as (e0' & Hin' & Hty & Hcn & Hm & Hattr).
    exists (finalize e0'). split_and!; [|done..|by simpl; rewrite Hattr].
    unfold finalize_all. apply elem_of_app.
    destruct ty; [left|right]; apply list_elem_of_fmap; by exists (k, e0').
Qed.

(** ** The keys of the relationships *)

Lemma stored_role_key (role : option string) :
  stored_role role =
    if Str.truthy (role_or_empty role) then Some (Str.lower (role_or_empty role))
    else None.
Proof. destruct role as [r|]; [|done]. simpl. by destruct (Str.truthy r). Qed.

Lemma add_relationship_keys (person comp : entity (gset string))
    (role : option string) (ks : list (string * string * string)) :
  NoDup ks →
  let key := (entityId person, entityId comp, role_or_empty role) in
  ∃ ks',
    add_relationship person comp role (rel_of_key <$> ks, list_to_set ks)
    = (rel_of_key <$> ks', list_to_set ks')
    ∧ NoDup ks' ∧ ks `prefix_of` ks' ∧ key ∈ ks'
    ∧ ∀ k, k ∈ ks' → k ∈ ks ∨ k = key.
Proof.
  intros Hnd key. unfold add_relationship. fold key. cbn [fst snd].
  destruct (decide (key ∈ list_to_set ks)) as [Hin|Hin].
  - exists ks. apply elem_of_list_to_set in Hin. split_and!; auto.
  - exists (ks ++ [key]). rewrite elem_of_list_to_set in Hin. split_and!.
    + rewrite fmap_app, list_to_set_app_L. simpl. f_equal.
      * do 2 f_equal. unfold rel_of_key, key. simpl. by rewrite stored_role_key.
      * set_solver.
    + apply NoDup_app. split_and!; [done| |apply NoDup_singleton].
      intros x Hx ->%list_elem_of_singleton. done.
    + by apply prefix_app_r.
    + apply elem_of_app. right. by apply list_elem_of_singleton.
    + intros k [?| ->%list_elem_of_singleton]%elem_of_app; auto.
Qed.

(** ** The identities of the entities along the rows *)

Lemma bare_of_step (ty : entity_type) (n : string) (reg : registry)
    (e' : entity (gset string)) :
  bare e' = bare (get_or_create ty n reg).2 →
  bare_of (reg_store n e' (get_or_create ty n reg).1) n = Some (bare e')
  ∧ ∀ n' b, bare_of reg n' = Some b →
      bare_of (reg_store n e' (get_or_create ty n reg).1) n' = Some b.
Proof.
  intros Hb. unfold bare_of. split.
  - rewrite reg_lookup_store, decide_True by done.
    by rewrite get_or_create_lookup.
  - intros n' b. rewrite reg_lookup_store.
    destruct (decide (n' = n)) as [->|Hne].
    + rewrite get_or_create_lookup. simpl.
      destruct (reg_lookup n reg) as [e|] eqn:Hl; [|done]. simpl.
      intros [= <-]. by rewrite Hb, (get_or_create_known ty n reg e Hl).
    + by rewrite get_or_create_lookup_ne.
Qed.

(** What a row does to the keys and to the identities. *)
Lemma process_row_keys (st st' : state) (r : row)
    (ks : list (string * string * string)) :
  process_row st r = Ok st' → keys_inv st ks →
  (∀ ty n b, bare_of (registry_of ty st) n = Some b →
             bare_of (registry_of ty st') n = Some b)
  ∧ ∃ ks',
      keys_inv st' ks' ∧ ks `prefix_of` ks'
      ∧ (is_Some (row_company r) → is_Some (row_person r) →
         ∃ k, row_key st' r = Some k ∧ k ∈ ks')
      ∧ ∀ k, k ∈ ks' →
          k ∈ ks
          ∨ ∃ n role ph, row_person r = Some (n, role, ph) ∧ k.2 = role_or_empty role.
Proof.
  intros H%process_row_Ok (Hnd & Hkeys & Hrels). unfold row_key.
  destruct (row_company r) as [cname|].
  2:{ subst st'. split; [done|]. exists ks. split; [by split_and!|].
      split; [done|]. split; [|by left]. by intros [? [=]]. }
  simpl in H. destruct H as (comp' & Hloop & Hc & Hp).
  apply bare_for_each_add_field in Hloop.
  destruct (bare_of_step Company cname (companies st) comp' Hloop) as [Hbc Hsc].
  rewrite <- Hc in Hbc, Hsc.
  destruct (row_person r) as [[[pname role] phone]|].
  - destruct Hp as [Hp Hrel].
    destruct (bare_of_step Person pname (persons st)
                (add_phone phone (get_or_create Person pname (persons st)).2)
                (bare_add_phone _ _)) as [Hbp Hsp].
    rewrite <- Hp in Hbp, Hsp.
    split; [intros [] n b; [apply Hsc|apply Hsp]|].
    rewrite Hrels, Hkeys in Hrel.
    destruct (add_relationship_keys
                (add_phone phone (get_or_create Person pname (persons st)).2)
                comp' role ks Hnd) as (ks' & Heq & Hnd' & Hpre & Hin & Hfrom).
    rewrite Heq in Hrel. injection Hrel as Hr1 Hr2.
    exists ks'. split; [by split_and!|]. split; [done|]. split.
    + intros _ _. rewrite Hbp, Hbc. eexists. split; [done|]. exact Hin.
    + intros k [?| ->]%Hfrom; [by left|right]. by exists pname, role, phone.
  - destruct Hp as (Hp & Hr1 & Hr2).
    split; [intros [] n b; simpl; [apply Hsc|by rewrite Hp]|].
    exists ks. split; [split_and!; [done|congruence..]|].
    split; [done|]. split; [|by left]. by intros _ [? [=]].
Qed.

Lemma for_each_keys (rows : list row) (st st' : state)
    (ks : list (string * string * string)) :
  for_each process_row rows st = Ok st' → keys_inv st ks →
  (∀ ty n b, bare_of (registry_of ty st) n = Some b →
             bare_of (registry_of ty st') n = Some b)
  ∧ ∃ ks',
      keys_inv st' ks' ∧ ks `prefix_of` ks'
      ∧ ∀ k, k ∈ ks' →
          k ∈ ks
          ∨ ∃ r n role ph,
              r ∈ rows ∧ row_person r = Some (n, role, ph)
              ∧ k.2 = role_or_empty role.
Proof.
  revert st ks. induction rows as [|r rows IH]; intros st ks; cbn [for_each].
  - intros [= <-] Hinv. split; [done|]. exists ks.
    split; [done|]. split; [done|]. by left.
  - destruct (process_row st r) as [st1|] eqn:Hr; [|done].
    intros H Hinv. change (for_each process_row rows st1 = Ok st') in H.
    destruct (process_row_keys _ _ _ _ Hr Hinv)
      as (Hb1 & ks1 & Hinv1 & Hpre1 & _ & Hfrom1).
    destruct (IH _ _ H Hinv1) as (Hb2 & ks2 & Hinv2 & Hpre2 & Hfrom2).
    split; [by auto|]. exists ks2. split; [done|]. split; [by etrans|].
    intros k [Hk|(r' & n & role & ph & Hin & Hp & Hk)]%Hfrom2.
    + destruct (Hfrom1 k Hk) as [?|(n & role & ph & Hp & Hk')]; [by left|right].
      exists r, n, role, ph. split; [by left|done].
    + right. exists r', n, role, ph. split; [by right|done].
Qed.

Lemma keys_inv_initial : keys_inv initial_state [].
Proof. split_and!; [constructor|done..]. Qed.

(** ** Rows and relationships *)

Lemma bare_of_finalized (ty : entity_type) (reg : registry) (n : string)
    (b : entity ()) :
  reg_wf ty reg → bare_of reg n = Some b →
  ∃ e, e ∈ finalize_all reg ∧ bare e = b ∧ type e = ty ∧ canonicalName e = n.
Proof.
  unfold bare_of. intros Hwf Hb.
  destruct (reg_lookup n reg) as [e0|] eqn:Hl; [|done].
  injection Hb as <-. apply reg_lookup_Some in Hl.
  exists (finalize e0). split_and!; [|done|by apply (reg_wf_elem ty reg n)..].
  unfold finalize_all. apply list_elem_of_fmap. by exists (n, e0).
Qed.

Section Relationships.

Variable fs : file_system.
Variable file_path : string.
Variable rows : list row.
Hypothesis Hfile : fs file_path = Ok rows.

(** X13: A row of a company whose person field is read has its relationship in
    the result: from the entity of the person to the entity of the company,
    with the role of the field. *)
Theorem relationship_of_row (ents : list (entity attr_value))
    (rels : list relationship) (r : row) (cname pname : string)
    (extracted phone : option string) :
  parse_mas_fid fs file_path = Ok (ents, rels) →
  r ∈ rows → row_company r = Some cname →
  row_person r = Some (pname, extracted, phone) →
  ∃ rel p c,
    rel ∈ rels ∧ p ∈ ents ∧ c ∈ ents
    ∧ type p = Person ∧ canonicalName p = pname
    ∧ type c = Company ∧ canonicalName c = cname
    ∧ sourceEntityId rel = entityId p ∧ targetEntityId rel = entityId c
    ∧ role rel = stored_role extracted.
Proof.
  intros (st & Hst & -> & ->)%(parse_mas_fid_Ok _ _ _ _ _ Hfile) Hin Hrc Hrp.
  destruct (final_registry Company _ _ Hst) as [_ Hcwf].
  destruct (final_registry Person _ _ Hst) as [_ Hpwf]. simpl in Hcwf, Hpwf.
  apply list_elem_of_split in Hin as (pre & post & ->).
  rewrite for_each_app in Hst.
  destruct (for_each process_row pre initial_state) as [st1|] eqn:Hpre; [|done].
  simpl in Hst. destruct (process_row st1 r) as [st2|] eqn:Hr; [|done].
  change (for_each process_row post st2 = Ok st) in Hst.
  destruct (for_each_keys _ _ _ _ Hpre keys_inv_initial) as (_ & ks1 & Hinv1 & _).
  destruct (process_row_keys _ _ _ _ Hr Hinv1) as (_ & ks2 & Hinv2 & _ & Hkey & _).
  destruct (for_each_keys _ _ _ _ Hst Hinv2)
    as (Hstable & ks3 & (_ & _ & Hrels) & Hpre3 & _).
  destruct Hkey as (k & Hk & Hkin); [by rewrite Hrc|by rewrite Hrp|].
  unfold row_key in Hk. rewrite Hrc, Hrp in Hk.
  destruct (bare_of (persons st2) pname) as [bp|] eqn:Hbp; [|done].
  destruct (bare_of (companies st2) cname) as [bc|] eqn:Hbc; [|done].
  injection Hk as <-.
  apply (Hstable Person) in Hbp. apply (Hstable Company) in Hbc. simpl in Hbp, Hbc.
  destruct (bare_of_finalized Person _ _ _ Hpwf Hbp) as (p & Hp & <- & Htp & Hnp).
  destruct (bare_of_finalized Company _ _ _ Hcwf Hbc) as (c & Hc & <- & Htc & Hnc).
  exists (rel_of_key (entityId (bare p), entityId (bare c), role_or_empty extracted)),
    p, c.
  split_and!; [|apply elem_of_app; by right|apply elem_of_app; by left|done..|].
  - rewrite Hrels. apply list_elem_of_fmap. eexists. split; [done|].
    by eapply elem_of_prefix.
  - simpl. by rewrite stored_role_key.
Qed.

(** X14: When the roles read from the rows are in lower case, no two
    relationships of the result have the same source, target and role. *)
Theorem relationships_distinct (ents : list (entity attr_value))
    (rels : list relationship) :
  parse_mas_fid fs file_path = Ok (ents, rels) →
  (∀ r n ro ph, r ∈ rows → row_person r = Some (n, Some ro, ph) →
                Str.lower ro = ro) →
  NoDup ((λ rel, (sourceEntityId rel, targetEntityId rel, role rel)) <$> rels).
Proof.
  intros (st & Hst & -> & ->)%(parse_mas_fid_Ok _ _ _ _ _ Hfile) Hlower.
  destruct (for_each_keys _ _ _ _ Hst keys_inv_initial)
    as (_ & ks & (Hnd & _ & ->) & _ & Hfrom).
  assert (∀ k, k ∈ ks → Str.lower k.2 = k.2) as Hks.
  { intros k [[]%elem_of_nil|(r & n & role & ph & Hin & Hp & ->)]%Hfrom.
    destruct role as [ro|]; [|done]. simpl. by eapply Hlower. }
  rewrite <- list_fmap_compose. apply NoDup_fmap_2_strong; [|done].
  intros [[p1 c1] r1] [[p2 c2] r2] H1%Hks H2%Hks. simpl in *.
  rewrite H1, H2. destruct r1, r2; simpl; congruence.
Qed.

End Relationships.


(** ** A file read twice *)

Lemma foldl_add_seen_known (os : list (option string)) (l0 : list string) :
  (∀ n, Some n ∈ os → n ∈ l0) → foldl add_seen l0 os = l0.
Proof.
  induction os as [|[n|] os IH]; intros Hall; simpl; [done| |].
  - rewrite decide_True by (apply Hall; by left).
    apply IH. intros n' ?. apply Hall. by right.
  - apply IH. intros n' ?. apply Hall. by right.
Qed.

Lemma entity_ext (e e' : entity (gset string)) :
  bare e = bare e' → attributes e = attributes e' → e = e'.
Proof.
  destruct e, e'. unfold bare. simpl. intros [= -> -> -> ->] ->. done.
Qed.

Lemma attrs_of_cons (k : string) (e : entity (gset string)) (reg : registry)
    (n : string) :
  attrs_of ((k, e) :: reg) n = if decide (k = n) then attributes e else attrs_of reg n.
Proof.
  unfold attrs_of. simpl. rewrite eqb_decide.
  case_bool_decide; [by rewrite decide_True|by rewrite decide_False].
Qed.

Lemma attrs_of_unknown (reg : registry) (n : string) :
  n ∉ names reg → attrs_of reg n = ∅.
Proof. intros H%reg_lookup_None. unfold attrs_of. by rewrite H. Qed.

(** Two registries with the same identities and the same attributes are
    the same. *)
Lemma registry_ext (reg reg' : registry) :
  skeleton reg = skeleton reg' → NoDup (names reg) →
  (∀ n, attrs_of reg n = attrs_of reg' n) → reg = reg'.
Proof.
  revert reg'. induction reg as [|[k e] reg IH]; intros [|[k' e'] reg'];
    try done.
  unfold skeleton, names. rewrite !fmap_cons. simpl.
  intros Hs [Hk Hnd]%NoDup_cons Hattrs.
  pose proof (f_equal tail Hs) as Hs'. simpl in Hs'.
  pose proof (f_equal head Hs) as Hhd. simpl in Hhd. apply (inj Some) in Hhd.
  pose proof (f_equal fst Hhd) as Hkk. pose proof (f_equal snd Hhd) as Hb.
  simpl in Hkk, Hb. subst k'. clear Hs Hhd.
  pose proof (Hattrs k) as Hk0. rewrite !attrs_of_cons, !decide_True in Hk0 by done.
  rewrite (entity_ext e e' Hb Hk0). f_equal. apply IH; [done..|].
  intros n. pose proof (Hattrs n) as Hn. rewrite !attrs_of_cons in Hn.
  destruct (decide (k = n)) as [<-|Hne]; [|done].
  rewrite !attrs_of_unknown; [done| |done].
  fold (skeleton reg) (skeleton reg') in Hs'.
  rewrite <- names_skeleton, <- Hs', names_skeleton. done.
Qed.

Lemma attrs_ext_company (m1 m2 : gmap string (gset string)) :
  attrs_wf m1 → attrs_wf m2 →
  (∀ key, key ≠ "Organisation Name" → value_set m1 key = value_set m2 key) →
  m1 = m2.
Proof.
  intros [H1 O1] [H2 O2] Hval. apply map_eq. intros key.
  destruct (decide (key = "Organisation Name")) as [->|Hkey]; [congruence|].
  specialize (Hval key Hkey). unfold value_set in Hval.
  destruct (m1 !! key) as [v1|] eqn:E1, (m2 !! key) as [v2|] eqn:E2;
    simpl in Hval; [congruence| | |done].
  - by destruct (H1 _ _ E1).
  - by destruct (H2 _ _ E2).
Qed.

Lemma attrs_ext_person (m1 m2 : gmap string (gset string)) :
  person_attrs_wf m1 → person_attrs_wf m2 →
  value_set m1 "Phone Number" = value_set m2 "Phone Number" →
  m1 = m2.
Proof.
  intros H1 H2 Hval. apply map_eq. intros key. unfold value_set in Hval.
  destruct (decide (key = "Phone Number")) as [->|Hkey].
  - destruct (m1 !! "Phone Number") as [v1|] eqn:E1,
      (m2 !! "Phone Number") as [v2|] eqn:E2; simpl in Hval; [congruence| | |done].
    + by destruct (H1 _ _ E1).
    + by destruct (H2 _ _ E2).
  - destruct (m1 !! key) as [v1|] eqn:E1; [by destruct (H1 _ _ E1)|].
    destruct (m2 !! key) as [v2|] eqn:E2; [by destruct (H2 _ _ E2)|done].
Qed.

Lemma row_key_stable (st st' : state) (r : row) (k : string * string * string) :
  (∀ ty n b, bare_of (registry_of ty st) n = Some b →
             bare_of (registry_of ty st') n = Some b) →
  row_key st r = Some k → row_key st' r = Some k.
Proof.
  intros Hstable. unfold row_key.
  destruct (row_company r) as [cname|]; [|done].
  destruct (row_person r) as [[[pname role] phone]|]; [|done].
  destruct (bare_of (persons st) pname) as [bp|] eqn:Hbp; [|done].
  destruct (bare_of (companies st) cname) as [bc|] eqn:Hbc; [|done].
  pose proof (Hstable Person _ _ Hbp) as H1.
  pose proof (Hstable Company _ _ Hbc) as H2. simpl in H1, H2.
  by rewrite H1, H2.
Qed.

Lemma process_row_stable (st st' : state) (r : row) :
  process_row st r = Ok st' →
  ∀ ty n b, bare_of (registry_of ty st) n = Some b →
            bare_of (registry_of ty st') n = Some b.
Proof.
  intros H%process_row_Ok.
  destruct (row_company r) as [cname|]; [|by subst st'].
  simpl in H. destruct H as (comp' & Hloop & Hc & Hp).
  apply bare_for_each_add_field in Hloop.
  destruct (bare_of_step Company cname (companies st) comp' Hloop) as [_ Hsc].
  rewrite <- Hc in Hsc. intros [] n b; simpl; [apply Hsc|].
  destruct (row_person r) as [[[pname role] phone]|].
  - destruct Hp as [Hp _].
    destruct (bare_of_step Person pname (persons st)
                (add_phone phone (get_or_create Person pname (persons st)).2)
                (bare_add_phone _ _)) as [_ Hsp].
    rewrite <- Hp in Hsp. apply Hsp.
  - destruct Hp as [-> _]. done.
Qed.

(** After the rows, the key of each of them is known. *)
Lemma for_each_row_keys (rows : list row) (st st' : state)
    (ks : list (string * string * string)) :
  for_each process_row rows st = Ok st' → keys_inv st ks →
  ∀ r, r ∈ rows → is_Some (row_company r) → is_Some (row_person r) →
    ∃ k, row_key st' r = Some k ∧ k ∈ relation_keys st'.
Proof.
  revert st ks. induction rows as [|r0 rows IH]; intros st ks; cbn [for_each].
  - by intros _ _ r ?%elem_of_nil.
  - destruct (process_row st r0) as [st1|] eqn:Hr; [|done].
    intros H Hinv. change (for_each process_row rows st1 = Ok st') in H.
    destruct (process_row_keys _ _ _ _ Hr Hinv) as (_ & ks1 & Hinv1 & _ & Hkey & _).
    intros r [->|Hin]%elem_of_cons Hc Hp; [|by eapply IH].
    destruct (Hkey Hc Hp) as (k & Hk & Hkin).
    destruct (for_each_keys _ _ _ _ H Hinv1)
      as (Hstable & ks2 & (_ & -> & _) & Hpre & _).
    exists k. split; [by eapply row_key_stable|].
    apply elem_of_list_to_set. by eapply elem_of_prefix.
Qed.

(** A row whose key is known, and whose person and company are, adds no
    relationship. *)
Lemma process_row_known (st st' : state) (r : row) :
  process_row st r = Ok st' →
  (is_Some (row_company r) → is_Some (row_person r) →
   ∃ k, row_key st r = Some k ∧ k ∈ relation_keys st) →
  relationships st' = relationships st ∧ relation_keys st' = relation_keys st.
Proof.
  intros H%process_row_Ok Hknown. unfold row_key in Hknown.
  destruct (row_company r) as [cname|]; [|by subst st'].
  simpl in H. destruct H as (comp' & Hloop & Hc & Hp).
  apply bare_for_each_add_field in Hloop.
  destruct (row_person r) as [[[pname role] phone]|]; [|by destruct Hp as (_ & ? & ?)].
  destruct Hp as [_ Hrel]. destruct Hknown as (k & Hk & Hkin); [done..|].
  unfold bare_of in Hk.
  destruct (reg_lookup pname (persons st)) as [ep|] eqn:Hlp; [|done].
  destruct (reg_lookup cname (companies st)) as [ec|] eqn:Hlc; [|done].
  simpl in Hk. injection Hk as <-.
  rewrite (get_or_create_known Person _ _ _ Hlp) in Hrel.
  rewrite (get_or_create_known Company _ _ _ Hlc) in Hloop.
  unfold add_relationship in Hrel. cbn [fst snd] in Hrel.
  rewrite (bare_entityId _ _ (bare_add_phone _ _)), (bare_entityId _ _ Hloop) in Hrel.
  rewrite decide_True in Hrel by done. by injection Hrel as -> ->.
Qed.

Lemma for_each_known (rows0 rows : list row) (st st' : state) :
  for_each process_row rows st = Ok st' →
  rows ⊆ rows0 →
  (∀ r, r ∈ rows0 → is_Some (row_company r) → is_Some (row_person r) →
        ∃ k, row_key st r = Some k ∧ k ∈ relation_keys st) →
  relationships st' = relationships st.
Proof.
  revert st. induction rows as [|r rows IH]; intros st; cbn [for_each].
  - by intros [= <-].
  - destruct (process_row st r) as [st1|] eqn:Hr; [|done].
    intros H Hsub Hknown. change (for_each process_row rows st1 = Ok st') in H.
    destruct (process_row_known _ _ _ Hr) as [Hr1 Hr2].
    { apply Hknown, Hsub. by left. }
    rewrite <- Hr1. apply IH; [done|set_solver|].
    intros r' Hin Hc Hp. destruct (Hknown r' Hin Hc Hp) as (k & Hk & Hkin).
    exists k. split; [|by rewrite Hr2].
    apply (row_key_stable st); [|done]. apply (process_row_stable _ _ _ Hr).
Qed.

Lemma registry_read_twice (ty : entity_type) (rows : list row) (st1 st2 : state) :
  for_each process_row rows initial_state = Ok st1 →
  for_each process_row rows st1 = Ok st2 →
  registry_of ty st2 = registry_of ty st1.
Proof.
  intros H1 H2.
  destruct (final_registry ty _ _ H1) as [Hn1 Hwf1].
  destruct (for_each_registry ty _ _ _ H2) as [Hn2 Hwf2].
  specialize (Hwf2 Hwf1).
  assert (names (registry_of ty st2) = names (registry_of ty st1)) as Hnames.
  { rewrite Hn2. apply foldl_add_seen_known.
    intros n (r & Hr & Hin)%list_elem_of_fmap.
    rewrite Hn1, elem_of_first_seen, list_elem_of_omap. eauto. }
  apply registry_ext.
  - unfold reg_wf in Hwf1, Hwf2. by rewrite Hwf1, Hwf2, Hnames.
  - rewrite Hnames, Hn1. apply NoDup_first_seen.
  - intros n. destruct ty; simpl.
    + destruct (for_each_attributes _ _ _ H1) as [Hv1 Ha1].
      destruct (for_each_attributes _ _ _ H2) as [Hv2 Ha2].
      specialize (Ha1 (λ _, attrs_wf_empty)). specialize (Ha2 Ha1).
      apply attrs_ext_company; [done..|].
      intros key Hkey.
      assert (value_set (attrs_of (companies st1) n) key = column_values n key rows)
        as E1.
      { rewrite (Hv1 n key Hkey). unfold attrs_of, value_set. simpl.
        rewrite lookup_empty. simpl. apply (left_id_L ∅ (∪)). }
      rewrite (Hv2 n key Hkey), E1. apply (idemp_L (∪)).
    + destruct (for_each_person_attributes _ _ _ H1) as [Hv1 Ha1].
      destruct (for_each_person_attributes _ _ _ H2) as [Hv2 Ha2].
      specialize (Ha1 (λ _, person_attrs_wf_empty)). specialize (Ha2 Ha1).
      apply attrs_ext_person; [done..|].
      assert (value_set (attrs_of (persons st1) n) "Phone Number"
              = person_phones n rows) as E1.
      { rewrite (Hv1 n). unfold attrs_of, value_set. simpl.
        rewrite lookup_empty. simpl. apply (left_id_L ∅ (∪)). }
      rewrite (Hv2 n), E1. apply (idemp_L (∪)).
Qed.

(** X16: A file whose rows are all repeated after the last one has the result of
    the file itself: the same entities with the same attributes, and the same
    relationships; and it raises what the file raises. *)
Theorem rows_repeated (fs : file_system) (p1 p2 : string) (rows : list row) :
  fs p1 = Ok rows → fs p2 = Ok (rows ++ rows) →
  parse_mas_fid fs p2 = parse_mas_fid fs p1.
Proof.
  intros H1 H2. unfold parse_mas_fid, parse_rows. rewrite H1, H2. simpl.
  rewrite for_each_app.
  destruct (for_each process_row rows initial_state) as [st1|] eqn:Hst1; [|done].
  simpl.
  pose proof (for_each_rows_result rows initial_state) as Hok.
  pose proof (for_each_rows_result rows st1) as Hok2.
  destruct (forallb row_ok rows); [|congruence].
  destruct Hok2 as [st2 Hst2]. rewrite Hst2. simpl.
  pose proof (registry_read_twice Company _ _ _ Hst1 Hst2) as Hc.
  pose proof (registry_read_twice Person _ _ _ Hst1 Hst2) as Hp.
  simpl in Hc, Hp. rewrite Hc, Hp. do 2 f_equal.
  apply (for_each_known rows rows st1 st2 Hst2); [done|].
  intros r Hin. by apply (for_each_row_keys rows initial_state st1 [] Hst1 keys_inv_initial).
Qed.

Lemma rows_repeated_witness :
  parse_mas_fid (λ p, if String.eqb p "twice.tsv" then Ok (sample_rows ++ sample_rows)
                      else Ok sample_rows) "twice.tsv"
  = parse_mas_fid (λ p, if String.eqb p "twice.tsv" then Ok (sample_rows ++ sample_rows)
                        else Ok sample_rows) "once.tsv".
Proof. apply (rows_repeated _ "once.tsv" "twice.tsv" sample_rows); reflexivity. Defined.

(** ** On the sample files *)

Lemma attribute_values_witness :
  2 ≤ length ["1 Raffles Place"; "2 Marina Boulevard"]
  ∧ Forall value_ok ["1 Raffles Place"; "2 Marina Boulevard"]
  ∧ Sorted String.le ["1 Raffles Place"; "2 Marina Boulevard"]
  ∧ NoDup ["1 Raffles Place"; "2 Marina Boulevard"].
Proof.
  apply (attribute_values sample_fs sample_path sample_rows eq_refl
           sample_entities sample_relationships sample_company "Address"
           (Sequence ["1 Raffles Place"; "2 Marina Boulevard"])).
  - by vm_compute.
  - vm_compute. apply list_elem_of_here.
  - by vm_compute.
Defined.


Lemma entities_of_permuted_rows_witness :
  ∃ ents' rels',
    parse_mas_fid sample_files "reversed.tsv" = Ok (ents', rels')
    ∧ length ents' = length sample_entities
    ∧ ∀ e, e ∈ sample_entities →
        ∃ e', e' ∈ ents'
          ∧ type e' = type e ∧ canonicalName e' = canonicalName e
          ∧ mentions e' = mentions e ∧ attributes e' = attributes e.
Proof.
  apply (entities_of_permuted_rows sample_files sample_path "reversed.tsv"
           sample_rows (reverse sample_rows) sample_entities sample_relationships).
  - reflexivity.
  - reflexivity.
  - symmetry. apply reverse_Permutation.
  - by vm_compute.
Defined.

Lemma relationship_of_row_witness :
  ∃ rel p c,
    rel ∈ sample_relationships ∧ p ∈ sample_entities ∧ c ∈ sample_entities
    ∧ type p = Person ∧ canonicalName p = "Tan Wee"
    ∧ type c = Company ∧ canonicalName c = "ACME Pte Ltd"
    ∧ sourceEntityId rel = entityId p ∧ targetEntityId rel = entityId c
    ∧ role rel = stored_role (Some "Head of Compliance").
Proof.
  apply (relationship_of_row sample_fs sample_path sample_rows eq_refl
           sample_entities sample_relationships
           [ Field "Organisation Name" (Some "ACME Pte Ltd");
             Field "Address" (Some "2 Marina Boulevard ");
             Field "Phone Number" (Some "+65 6221 9876 (Tan Wee-Head of Compliance)") ]
           "ACME Pte Ltd" "Tan Wee" (Some "Head of Compliance")
           (Some "+65 6221 9876")).
  - by vm_compute.
  - apply list_elem_of_further, list_elem_of_here.
  - by vm_compute.
  - by vm_compute.
Defined.

Lemma relationships_distinct_witness :
  NoDup ((λ rel, (sourceEntityId rel, targetEntityId rel, role rel))
           <$> relationships_of lower_rows).
Proof.
  apply (relationships_distinct (λ _, Ok lower_rows) sample_path lower_rows eq_refl
           (entities_of lower_rows) (relationships_of lower_rows)).
  - by vm_compute.
  - intros r n ro ph Hin Hp. unfold lower_rows in Hin.
    repeat (apply elem_of_cons in Hin as [->|Hin]);
      [| |by apply elem_of_nil in Hin];
      vm_compute in Hp; injection Hp as _ <- _; reflexivity.
Defined.


(** ** The row of a relationship *)

Lemma for_each_stable (rows : list row) (st st' : state) :
  for_each process_row rows st = Ok st' →
  ∀ ty n b, bare_of (registry_of ty st) n = Some b →
            bare_of (registry_of ty st') n = Some b.
Proof.
  revert st. induction rows as [|r rows IH]; intros st; cbn [for_each].
  - by intros [= <-].
  - destruct (process_row st r) as [st1|] eqn:Hr; [|done].
    intros H ty n b Hb. change (for_each process_row rows st1 = Ok st') in H.
    apply (IH _ H). by apply (process_row_stable _ _ _ Hr).
Qed.

(** A relationship that a row adds goes from the person of the row to its
    company, with the role of its person field. *)
Lemma process_row_origin (st st' : state) (r : row) (rel : relationship) :
  process_row st r = Ok st' → rel ∈ relationships st' →
  rel ∈ relationships st
  ∨ ∃ cname pname extracted phone p c,
      row_company r = Some cname
      ∧ row_person r = Some (pname, extracted, phone)
      ∧ bare_of (persons st') pname = Some p
      ∧ bare_of (companies st') cname = Some c
      ∧ rel = Relationship (entityId p) (entityId c) (stored_role extracted) None.
Proof.
  intros H%process_row_Ok Hin.
  destruct (row_company r) as [cname|]; [|subst st'; by left].
  simpl in H. destruct H as (comp' & Hloop & Hc & Hp).
  apply bare_for_each_add_field in Hloop.
  destruct (bare_of_step Company cname (companies st) comp' Hloop) as [Hbc _].
  rewrite <- Hc in Hbc.
  destruct (row_person r) as [[[pname extracted] phone]|].
  - destruct Hp as [Hp Hrel].
    destruct (bare_of_step Person pname (persons st)
                (add_phone phone (get_or_create Person pname (persons st)).2)
                (bare_add_phone _ _)) as [Hbp _].
    rewrite <- Hp in Hbp.
    apply (f_equal fst) in Hrel. simpl in Hrel. rewrite Hrel in Hin.
    apply elem_of_add_relationship in Hin as [?| ->]; [by left|right].
    eexists _, _, _, _, _, _.
    split_and!; [reflexivity|reflexivity|exact Hbp|exact Hbc|reflexivity].
  - destruct Hp as (_ & Hr & _). left. by rewrite <- Hr.
Qed.

Lemma for_each_origin (rows : list row) (st st' : state) (rel : relationship) :
  for_each process_row rows st = Ok st' → rel ∈ relationships st' →
  rel ∈ relationships st
  ∨ ∃ r cname pname extracted phone p c,
      r ∈ rows
      ∧ row_company r = Some cname
      ∧ row_person r = Some (pname, extracted, phone)
      ∧ bare_of (persons st') pname = Some p
      ∧ bare_of (companies st') cname = Some c
      ∧ rel = Relationship (entityId p) (entityId c) (stored_role extracted) None.
Proof.
  revert st. induction rows as [|r rows IH]; intros st; cbn [for_each].
  - intros [= <-] ?. by left.
  - destruct (process_row st r) as [st1|] eqn:Hr; [|done].
    intros H Hin. change (for_each process_row rows st1 = Ok st') in H.
    destruct (IH _ H Hin)
      as [Hin1|(r' & cn & pn & ex & ph & p & c & ? & ? & ? & ? & ? & ?)].
    + destruct (process_row_origin _ _ _ _ Hr Hin1)
        as [?|(cn & pn & ex & ph & p & c & ? & ? & Hp & Hc & ?)]; [by left|right].
      exists r, cn, pn, ex, ph, p, c. split_and!; [by left|done|done| | |done].
      * by apply (for_each_stable _ _ _ H Person).
      * by apply (for_each_stable _ _ _ H Company).
    + right. exists r', cn, pn, ex, ph, p, c. split_and!; [by right|done..].
Qed.

Section Roles.

Variable fs : file_system.
Variable file_path : string.
Variable rows : list row.
Hypothesis Hfile : fs file_path = Ok rows.

(** C6: a relationship of the result comes from a row of a company whose
    person field is read: it goes from the entity of the person of that row
    to the entity of its company, and its role is the role extracted from
    that row, lower-cased, or [None] when the field gave no role or an empty
    one; it is never the empty string. *)
Theorem relationship_roles (ents : list (entity attr_value))
    (rels : list relationship) (rel : relationship) :
  parse_mas_fid fs file_path = Ok (ents, rels) →
  rel ∈ rels →
  role rel ≠ Some ""
  ∧ ∃ r cname pname extracted phone p c,
      r ∈ rows
      ∧ row_company r = Some cname
      ∧ row_person r = Some (pname, extracted, phone)
      ∧ p ∈ ents ∧ type p = Person ∧ canonicalName p = pname
      ∧ c ∈ ents ∧ type c = Company ∧ canonicalName c = cname
      ∧ sourceEntityId rel = entityId p
      ∧ targetEntityId rel = entityId c
      ∧ match extracted with
        | None => role rel = None
        | Some s =>
            if decide (s = "") then role rel = None
            else role rel = Some (Str.lower s)
        end.
Proof.
  intros (st & Hst & -> & ->)%(parse_mas_fid_Ok _ _ _ _ _ Hfile) Hin.
  destruct (final_registry Company _ _ Hst) as [_ Hcwf].
  destruct (final_registry Person _ _ Hst) as [_ Hpwf]. simpl in Hcwf, Hpwf.
  destruct (for_each_origin _ _ _ _ Hst Hin)
    as [[]%elem_of_nil|(r & cn & pn & ex & ph & bp & bc & Hr & Hrc & Hrp & Hbp & Hbc & ->)].
  destruct (bare_of_finalized Person _ _ _ Hpwf Hbp) as (p & Hp & <- & Htp & Hnp).
  destruct (bare_of_finalized Company _ _ _ Hcwf Hbc) as (c & Hc & <- & Htc & Hnc).
  cbn [role sourceEntityId targetEntityId]. split.
  - unfold stored_role. destruct ex as [s|]; [|done].
    destruct (Str.truthy s) eqn:Hs; [|done].
    intros [= H%lower_nonempty]. by subst s.
  - exists r, cn, pn, ex, ph, p, c.
    split_and!; [done|done|done|apply elem_of_app; by right|done|done
                |apply elem_of_app; by left|done|done|done|done|].
    unfold stored_role. destruct ex as [s|]; [|done].
    destruct (decide (s = "")) as [->|Hne]; [done|].
    apply truthy_true in Hne. by rewrite Hne.
Qed.

End Roles.

Lemma relationship_roles_witness :
  let rel := Relationship "PERSON_2" "COMPANY_1" (Some "head of compliance") None in
  role rel ≠ Some ""
  ∧ ∃ r cname pname extracted phone p c,
      r ∈ sample_rows
      ∧ row_company r = Some cname
      ∧ row_person r = Some (pname, extracted, phone)
      ∧ p ∈ sample_entities ∧ type p = Person ∧ canonicalName p = pname
      ∧ c ∈ sample_entities ∧ type c = Company ∧ canonicalName c = cname
      ∧ sourceEntityId rel = entityId p
      ∧ targetEntityId rel = entityId c
      ∧ match extracted with
        | None => role rel = None
        | Some s =>
            if decide (s = "") then role rel = None
            else role rel = Some (Str.lower s)
        end.
Proof.
  apply (relationship_roles sample_fs sample_path sample_rows eq_refl
           sample_entities sample_relationships
           (Relationship "PERSON_2" "COMPANY_1" (Some "head of compliance") None)).
  - by vm_compute.
  - vm_compute. apply list_elem_of_further, list_elem_of_here.
Defined.
